(** * case_assignment_v2.py: segmenter, classifier and pipeline

    A shallow embedding of [src/case_assignment_v2.py].

    - Python [str] values are lists of Unicode code points ([list N]).
    - [str.strip], [str.split] (no argument), [str.join], list slicing and
      [re.split(r'\n\s*\n', _)] are embedded from the semantics of the
      Python built-ins the source calls.
    - Python's [float] is idealised by exact rationals ([Q]): [avg_words] and
      [length_threshold] are the exact quotients.  [int(_)] is truncation
      toward zero.  Module [Binary64] re-evaluates the two formulas under
      IEEE-754 double arithmetic on the worked example.
    - The [while] loop is run with a fuel argument: [None] means that the
      iteration budget ran out (the loop had not exited yet).
    - [main] is embedded over an explicit environment of outside answers
      (file system, PDF reader, classification service, CSV writer) and
      produces the trace of its observable events and its outcome. *)

From Stdlib Require Import String Ascii.
From Stdlib Require Import List ZArith QArith Qround Lia Bool.
From Stdlib Require Import Floats.SpecFloat.
Import ListNotations.

Local Open Scope Z_scope.

(** ** Python strings *)

Module PyStr.

(** A code point. *)
Definition char := N.

(** A Python [str]. *)
Definition str := list char.

Definition of_string (s : string) : str :=
  map N_of_ascii (list_ascii_of_string s).

Definition LF : char := 10%N.
Definition SPACE : char := 32%N.

(** [Py_UNICODE_ISSPACE]: the test behind [str.isspace], [str.strip],
    [str.split] and the [\s] class of a [str] pattern. *)
Definition isspace (c : char) : bool :=
  ((9 <=? c) && (c <=? 13) || (28 <=? c) && (c <=? 32)
   || (c =? 133) || (c =? 160) || (c =? 5760)
   || (8192 <=? c) && (c <=? 8202)
   || (c =? 8232) || (c =? 8233) || (c =? 8239) || (c =? 8287)
   || (c =? 12288))%N.

Definition is_newline (c : char) : bool := (c =? LF)%N.

(** [s.lstrip()] *)
Fixpoint lstrip (s : str) : str :=
  match s with
  | [] => []
  | c :: r => if isspace c then lstrip r else s
  end.

(** [s.rstrip()] *)
Definition rstrip (s : str) : str := rev (lstrip (rev s)).

(** [s.strip()] *)
Definition strip (s : str) : str := rstrip (lstrip s).

(** The scan of [s.split()]: [cur] holds the characters of the word being
    read, most recent first. *)
Definition flush (cur : str) : list str :=
  match cur with
  | [] => []
  | _ :: _ => [rev cur]
  end.

Fixpoint split_scan (cur : str) (s : str) : list str :=
  match s with
  | [] => flush cur
  | c :: r =>
      if isspace c then flush cur ++ split_scan [] r
      else split_scan (c :: cur) r
  end.

(** [s.split()] *)
Definition split (s : str) : list str := split_scan [] s.

(** [sep.join(items)] *)
Fixpoint join (sep : str) (items : list str) : str :=
  match items with
  | [] => []
  | [w] => w
  | w :: rest => w ++ sep ++ join sep rest
  end.

(** Bound of a slice: a negative bound counts from the end, and every bound
    is clamped to [0 .. len]. *)
Definition slice_bound (len i : Z) : Z :=
  if i <? 0 then Z.max 0 (len + i) else Z.min i len.

(** [l[a:b]] *)
Definition slice {A : Type} (l : list A) (a b : Z) : list A :=
  let len := Z.of_nat (length l) in
  let lo := slice_bound len a in
  let hi := slice_bound len b in
  firstn (Z.to_nat (hi - lo)) (skipn (Z.to_nat lo) l).

(** *** [re.split(r'\n\s*\n', text)] *)

(** [\s*\n] at the head of [s], greedy with backtracking: the rest of the
    input after the match, if there is one. *)
Fixpoint match_ws_nl (s : str) : option str :=
  match s with
  | [] => None
  | c :: r =>
      if isspace c then
        match match_ws_nl r with
        | Some rest => Some rest
        | None => if is_newline c then Some r else None
        end
      else None
  end.

(** [\n\s*\n] at the head of [s]. *)
Definition match_sep (s : str) : option str :=
  match s with
  | [] => None
  | c :: r => if is_newline c then match_ws_nl r else None
  end.

(** The scan of [re.split]: leftmost matches, left to right; [cur] is the
    piece being read, most recent character first. *)
Fixpoint re_split_scan (fuel : nat) (cur : str) (s : str) : list str :=
  match fuel with
  | O => [rev cur ++ s]
  | S fuel' =>
      match s with
      | [] => [rev cur]
      | c :: r =>
          match match_sep s with
          | Some rest => rev cur :: re_split_scan fuel' [] rest
          | None => re_split_scan fuel' (c :: cur) r
          end
      end
  end.

Definition re_split (text : str) : list str :=
  re_split_scan (S (length text)) [] text.

End PyStr.

Import PyStr.

(** ** Numbers *)

Module PyNum.

(** [sum(xs)]: left to right from 0. *)
Definition sum (xs : list Z) : Z := fold_left Z.add xs 0.

(** [int(x)] on a float: truncation toward zero. *)
Definition int (x : Q) : Z := Z.quot (Qnum x) (Zpos (Qden x)).

(** [n > x] with [n] an [int] and [x] a float. *)
Definition gt (n : Z) (x : Q) : bool := negb (Qle_bool (inject_Z n) x).

End PyNum.

Import PyNum.

(** ** The segmenter: [split_into_paragraphs] *)

Module Segmenter.

(** Truth value of a [str]: non-empty. *)
Definition truthy (s : str) : bool :=
  match s with
  | [] => false
  | _ :: _ => true
  end.

(** Step 1: [[p.strip() for p in re.split(r'\n\s*\n', text) if p.strip()]] *)
Definition paragraphs (text : str) : list str :=
  map strip (filter (fun p => truthy (strip p)) (re_split text)).

(** [len(p.split())] *)
Definition word_count (p : str) : Z := Z.of_nat (length (split p)).

(** Step 2: [sum(len(p.split()) for p in paragraphs)] *)
Definition total_words (paragraphs : list str) : Z :=
  sum (map word_count paragraphs).

Definition num_paragraphs (paragraphs : list str) : Z :=
  Z.of_nat (length paragraphs).

(** [total_words / num_paragraphs if num_paragraphs > 0 else 0] *)
Definition avg_words (paragraphs : list str) : Q :=
  if 0 <? num_paragraphs paragraphs
  then inject_Z (total_words paragraphs) / inject_Z (num_paragraphs paragraphs)
  else 0%Q.

(** [avg_words + ((avg_words * 20) / 100)] *)
Definition length_threshold (avg_words : Q) : Q :=
  (avg_words + ((avg_words * 20) / 100))%Q.

(** Step 3, the inner loop:
    [while start < len(words):
        adjusted_paragraphs.append(" ".join(words[start:start + int(avg_words)]))
        start += int(avg_words)]
    [fuel] bounds the number of evaluations of the loop test. *)
Fixpoint while_start (fuel : nat) (avg_words : Q) (words : list str)
    (start : Z) (adjusted_paragraphs : list str) : option (list str) :=
  match fuel with
  | O => None
  | S fuel' =>
      if start <? Z.of_nat (length words) then
        while_start fuel' avg_words words (start + int avg_words)
          (adjusted_paragraphs
             ++ [join [SPACE] (slice words start (start + int avg_words))])
      else Some adjusted_paragraphs
  end.

(** Step 3, the body of [for paragraph in paragraphs]. *)
Definition for_body (fuel : nat) (avg_words length_threshold : Q)
    (adjusted_paragraphs : list str) (paragraph : str) : option (list str) :=
  if gt (word_count paragraph) length_threshold then
    let words := split paragraph in
    while_start fuel avg_words words 0 adjusted_paragraphs
  else Some (adjusted_paragraphs ++ [paragraph]).

Fixpoint for_paragraph (fuel : nat) (avg_words length_threshold : Q)
    (paragraphs : list str) (adjusted_paragraphs : list str)
    : option (list str) :=
  match paragraphs with
  | [] => Some adjusted_paragraphs
  | paragraph :: rest =>
      match for_body fuel avg_words length_threshold
              adjusted_paragraphs paragraph with
      | Some adjusted' =>
          for_paragraph fuel avg_words length_threshold rest adjusted'
      | None => None
      end
  end.

(** [split_into_paragraphs(text)]: the returned list, or [None] when an inner
    loop is still running after [fuel] tests. *)
Definition split_into_paragraphs (fuel : nat) (text : str)
    : option (list str) :=
  let ps := paragraphs text in
  let avg := avg_words ps in
  for_paragraph fuel avg (length_threshold avg) ps [].

(** What one paragraph contributes to the output, given the statistics of the
    whole text. *)
Definition chunks_of (fuel : nat) (text : str) (paragraph : str)
    : option (list str) :=
  let avg := avg_words (paragraphs text) in
  for_body fuel avg (length_threshold avg) [] paragraph.

End Segmenter.

Import Segmenter.

(** ** The classifier and [main] *)

Module Pipeline.

Local Open Scope string_scope.
Local Open Scope list_scope.

(** An exception, by its message. *)
Definition exn := string.

Inductive result (A : Type) : Type :=
| Ok (a : A)
| Raise (e : exn).
Arguments Ok {A} a.
Arguments Raise {A} e.

(** The keyword arguments of [client.chat.completions.create]. *)
Record request := {
  model : string;
  store : bool;
  role : string;
  content : str
}.

(** A completion: the [message.content] of each of its [choices]
    ([None] for a message without content). *)
Definition completion := list (option str).

(** The pieces of a printed line. *)
Inductive piece :=
| Lit (s : string)
| Text (s : str)
| Num (x : Q)
| Exn (e : exn).

Definition line := list piece.

(** The table written by [to_csv]: one (news, topics) row per entry. *)
Definition table := list (str * str).

Inductive event :=
| EPrint (l : line)
| EReadPdf (file_path : string)
| ECreate (r : request)
| EToCsv (output_path : string) (df : table).

Definition trace := list event.

Inductive outcome :=
| Returned
| Raised (e : exn).

(** Exit status of the script: [main()] is its last statement. *)
Definition exit_status (o : outcome) : Z :=
  match o with
  | Returned => 0
  | Raised _ => 1
  end.

Definition is_to_csv (e : event) : bool :=
  match e with
  | EToCsv _ _ => true
  | _ => false
  end.

Definition is_create (e : event) : bool :=
  match e with
  | ECreate _ => true
  | _ => false
  end.

Definition prompt (paragraph : str) : str :=
  (of_string "You're a helpful assistant. Classify the following text into one of these topics: "
   ++ of_string "Politics, Sports, Economics, Entertainment." ++ [LF; LF]
   ++ of_string "Text: " ++ paragraph ++ [LF; LF] ++ of_string "Topic:")%list.

(** The request sent for one paragraph. *)
Definition request_of (paragraph : str) : request :=
  {| model := "gpt-4o-mini"; store := true;
     role := "user"; content := prompt paragraph |}.

Definition Error : str := of_string "Error".

(** [completion.choices[0].message.content.strip()] *)
Definition topic_of (c : completion) : result str :=
  match c with
  | [] => Raise "list index out of range"
  | None :: _ => Raise "'NoneType' object has no attribute 'strip'"
  | Some text :: _ => Ok (strip text)
  end.

(** The two [print] calls of [split_into_paragraphs]. *)
Definition split_into_paragraphs_prints (text : str) : list line :=
  let avg := avg_words (paragraphs text) in
  [ [Lit "Average words per paragraph: "; Num avg];
    [Lit "Length threshold:"; Num (length_threshold avg)] ].

(** [pd.DataFrame({"news": paragraphs, "topics": topics})]: columns of
    different lengths are refused. *)
Definition DataFrame (news topics : list str) : result table :=
  if Nat.eqb (length news) (length topics)
  then Ok (combine news topics)
  else Raise "All arrays must be of the same length".

(** ["/content/news.pdf" if os.path.exists('/content') else "news.pdf"] *)
Definition news_path (content_exists : bool) : string :=
  if content_exists then "/content/news.pdf" else "news.pdf".

(** ["/content/classified_news.csv" if os.path.exists('/content')
     else "classified_news.csv"] *)
Definition csv_path (content_exists : bool) : string :=
  if content_exists then "/content/classified_news.csv"
  else "classified_news.csv".

Section WithEnvironment.

(** The classification service: a state and its answer to one request. *)
Variable client : Type.
Variable create : client -> request -> result completion * client.

(** The body of [for paragraph in paragraphs] in [classify_paragraphs]. *)
Definition classify_one (c : client) (paragraph : str)
    : str * trace * client :=
  let r := request_of paragraph in
  match create c r with
  | (Ok completion, c') =>
      match topic_of completion with
      | Ok topic => (topic, [ECreate r], c')
      | Raise e =>
          (Error,
           [ECreate r; EPrint [Lit "Error processing paragraph: "; Exn e]],
           c')
      end
  | (Raise e, c') =>
      (Error,
       [ECreate r; EPrint [Lit "Error processing paragraph: "; Exn e]],
       c')
  end.

(** [classify_paragraphs(client, paragraphs)] with [topics] and the trace so
    far as accumulators. *)
Fixpoint classify_loop (c : client) (paragraphs : list str)
    (topics : list str) (t : trace) : list str * trace * client :=
  match paragraphs with
  | [] => (topics, t, c)
  | paragraph :: rest =>
      let '(topic, t1, c') := classify_one c paragraph in
      classify_loop c' rest (topics ++ [topic]) (t ++ t1)
  end.

Definition classify_paragraphs (c : client) (paragraphs : list str)
    : list str * trace * client :=
  classify_loop c paragraphs [] [].

(** [os.path.exists('/content')], when [main] starts and when it saves. *)
Variable content_exists_first : bool.
Variable content_exists_second : bool.
(** [read_pdf(file_path)] *)
Variable read_pdf : string -> result str.
(** [df.to_csv(output_path, index=False)] *)
Variable to_csv : string -> table -> result unit.

(** [main()]: the trace and the outcome, or [None] when segmentation is
    still running after [fuel] loop tests. *)
Definition main (fuel : nat) (c : client) : option (trace * outcome) :=
  let file_path := news_path content_exists_first in
  match read_pdf file_path with
  | Raise e =>
      Some ([EReadPdf file_path;
             EPrint [Lit "Failed to read the PDF: "; Exn e]], Returned)
  | Ok pdf_text =>
      let t0 :=
        EReadPdf file_path
          :: map EPrint (split_into_paragraphs_prints pdf_text) in
      match split_into_paragraphs fuel pdf_text with
      | None => None
      | Some [] =>
          Some (t0 ++ [EPrint [Lit "No paragraphs found in the document."]],
                Returned)
      | Some paragraphs =>
          let '(topics, t1, _) := classify_paragraphs c paragraphs in
          match DataFrame paragraphs topics with
          | Raise e => Some (t0 ++ t1, Raised e)
          | Ok df =>
              let output_path := csv_path content_exists_second in
              match to_csv output_path df with
              | Ok _ =>
                  Some (t0 ++ t1
                          ++ [EToCsv output_path df;
                              EPrint [Lit "Classified results saved to '";
                                      Lit output_path; Lit "'."]],
                        Returned)
              | Raise e =>
                  Some (t0 ++ t1
                          ++ [EToCsv output_path df;
                              EPrint [Lit "Failed to save the results: ";
                                      Exn e]],
                        Returned)
              end
          end
      end
  end.

End WithEnvironment.

End Pipeline.

Import Pipeline.

(** ** IEEE-754 double arithmetic for the two statistics *)

Module Binary64.

Definition prec : Z := 53.
Definition emax : Z := 1024.

Definition float := spec_float.

(** An [int] as a float (exact below [2^53]). *)
Definition of_int (z : Z) : float := binary_normalize prec emax z 0 false.

(** [total_words / num_paragraphs if num_paragraphs > 0 else 0] *)
Definition avg_words (total_words num_paragraphs : Z) : float :=
  if 0 <? num_paragraphs
  then SFdiv prec emax (of_int total_words) (of_int num_paragraphs)
  else of_int 0.

(** [avg_words + ((avg_words * 20) / 100)] *)
Definition length_threshold (avg_words : float) : float :=
  SFadd prec emax avg_words
    (SFdiv prec emax (SFmul prec emax avg_words (of_int 20)) (of_int 100)).

(** [int(x)] *)
Definition int (x : float) : Z :=
  match x with
  | S754_finite s m e =>
      let a := if 0 <=? e then Z.pos m * 2 ^ e else Z.pos m / 2 ^ (- e) in
      if s then - a else a
  | _ => 0
  end.

(** [n > x] *)
Definition gt (n : Z) (x : float) : bool := SFltb x (of_int n).

End Binary64.

(** ** Worked example of the specification *)

Definition example_text : str :=
  of_string "Short one." ++ [LF; LF] ++ of_string "Short two." ++ [LF; LF]
  ++ of_string "This is a much longer paragraph with many many more words than the others combined here.".

Definition example_p1 : str := of_string "Short one.".
Definition example_p2 : str := of_string "Short two.".
Definition example_p3 : str :=
  of_string "This is a much longer paragraph with many many more words than the others combined here.".

Definition example_chunks : list str :=
  [ of_string "This is a much longer paragraph";
    of_string "with many many more words than";
    of_string "the others combined here." ].

(** ** Vocabulary of the statements *)

Definition nonspace (c : char) : Prop := isspace c = false.

(** A word: non-empty and free of whitespace. *)
Definition is_word (w : str) : Prop := w <> [] /\ Forall nonspace w.

(** [l] cut from the left into pieces of [size] elements, the last one
    holding what remains. *)
Fixpoint windows {A : Type} (fuel size : nat) (l : list A) : list (list A) :=
  match fuel with
  | O => []
  | S fuel' =>
      match l with
      | [] => []
      | _ :: _ => firstn size l :: windows fuel' size (skipn size l)
      end
  end.

(** [wss] are consecutive windows of [l]: put end to end they give [l], each
    holds between one and [size] elements, and each but the last holds
    exactly [size]. *)
Definition consecutive_windows {A : Type} (size : nat) (l : list A)
    (wss : list (list A)) : Prop :=
  concat wss = l
  /\ Forall (fun w => (1 <= length w <= size)%nat) wss
  /\ Forall (fun w => length w = size) (removelast wss).

(** What the loop of Step 3 appends for the paragraphs [ps], under the
    statistics of the whole [text]. *)
Definition rechunk (fuel : nat) (text : str) (ps : list str)
    : option (list str) :=
  let avg := avg_words (paragraphs text) in
  for_paragraph fuel avg (length_threshold avg) ps [].

(** The answers of the service to the requests made for [ps], in order,
    from the state [c] on. *)
Fixpoint answers {client : Type}
    (create : client -> request -> result completion * client)
    (c : client) (ps : list str) : list (result completion) :=
  match ps with
  | [] => []
  | p :: rest =>
      let (a, c') := create c (request_of p) in
      a :: answers create c' rest
  end.

(** A call fails when the service raises or when no topic can be read off
    its completion. *)
Definition failed (a : result completion) : Prop :=
  match a with
  | Raise _ => True
  | Ok completion =>
      match topic_of completion with
      | Raise _ => True
      | Ok _ => False
      end
  end.

(** The label recorded for one answer. *)
Definition label_of (a : result completion) : str :=
  match a with
  | Raise _ => Error
  | Ok completion =>
      match topic_of completion with
      | Raise _ => Error
      | Ok topic => topic
      end
  end.

(** Concrete surroundings used to exercise the statements: a service that
    is down, a service that answers every request with one label, a reader
    that finds no file, a reader that returns a fixed text, and writers that
    succeed or refuse. *)
Definition service_down (c : unit) (r : request)
    : result completion * unit :=
  (Raise "service unavailable"%string, c).

Definition service_sports (c : unit) (r : request)
    : result completion * unit :=
  (Ok [Some (of_string " Sports ")], c).

Definition reader_missing (file_path : string) : result str :=
  Raise "No such file or directory"%string.

Definition reader_of (text : str) (file_path : string) : result str :=
  Ok text.

Definition writer_ok (output_path : string) (df : table) : result unit :=
  Ok tt.

Definition writer_denied (output_path : string) (df : table) : result unit :=
  Raise "Permission denied"%string.

Definition blank_text : str := [SPACE; LF; LF; SPACE].

(** ** The extractor: [read_pdf] *)

Module Extractor.

(** What [page.extract_text()] does on one page: its text, or an
    exception. *)
Definition page := result str.

(** The items of [page.extract_text() for page in pdf_reader.pages], drawn
    in page order; the first exception ends the iteration. *)
Fixpoint extract_all (pages : list page) : result (list str) :=
  match pages with
  | [] => Ok []
  | Raise e :: _ => Raise e
  | Ok text :: rest =>
      match extract_all rest with
      | Ok texts => Ok (text :: texts)
      | Raise e => Raise e
      end
  end.

(** [read_pdf(file_path)], over what [PdfReader(file_path)] does: the pages
    of the document, or an exception. *)
Definition read_pdf (PdfReader : string -> result (list page))
    (file_path : string) : result str :=
  match PdfReader file_path with
  | Raise e => Raise e
  | Ok pages =>
      match extract_all pages with
      | Ok texts => Ok (join [] texts)
      | Raise e => Raise e
      end
  end.

End Extractor.

(** ** The script as a whole *)

Module Script.

Local Open Scope string_scope.
Local Open Scope list_scope.

Section WithProcess.

(** [os.getenv] *)
Variable getenv : string -> option str.
(** The classification service and [OpenAI(api_key=api_key)]. *)
Variable client : Type.
Variable create : client -> request -> result completion * client.
Variable OpenAI : str -> result client.
Variable content_exists_first : bool.
Variable content_exists_second : bool.
Variable PdfReader : string -> result (list Extractor.page).
Variable to_csv : string -> table -> result unit.
(** [__name__ == "__main__"] *)
Variable run_as_main : bool.

(** The statements of the file from top to bottom: the key test, the
    client, and the call of [main] that ends the file. *)
Definition script (fuel : nat) : option (trace * outcome) :=
  let api_key := getenv "OPENAI_API_KEY" in
  match api_key with
  | None =>
      Some ([], Raised "OpenAI API key is not set in the environment variables.")
  | Some key =>
      if negb (truthy key) then
        Some ([], Raised "OpenAI API key is not set in the environment variables.")
      else
        match OpenAI key with
        | Raise e => Some ([], Raised e)
        | Ok c =>
            if run_as_main then
              main client create content_exists_first content_exists_second
                (Extractor.read_pdf PdfReader) to_csv fuel c
            else Some ([], Returned)
        end
  end.

End WithProcess.

End Script.

(** ** Further vocabulary *)

(** The exception behind a failed call, if the call failed. *)
Definition failure_of (a : result completion) : option exn :=
  match a with
  | Raise e => Some e
  | Ok completion =>
      match topic_of completion with
      | Raise e => Some e
      | Ok _ => None
      end
  end.

(** The events of one turn of the classifier's loop: the request, and the
    error line when the call failed. *)
Definition events_of (p : str) (a : result completion) : trace :=
  ECreate (request_of p)
    :: match failure_of a with
       | Some e =>
           [EPrint [Lit "Error processing paragraph: "%string; Exn e]]
       | None => []
       end.

(** The state of the service after the requests made for [ps]. *)
Fixpoint state_after {client : Type}
    (create : client -> request -> result completion * client)
    (c : client) (ps : list str) : client :=
  match ps with
  | [] => c
  | p :: rest => state_after create (snd (create c (request_of p))) rest
  end.

Definition call_failed (a : result completion) : bool :=
  match failure_of a with
  | Some _ => true
  | None => false
  end.

(** 1 when the first text ends inside a word and the second begins inside a
    word, 0 otherwise. *)
Definition glued (a b : str) : nat :=
  if negb (isspace (last a SPACE)) && negb (isspace (hd SPACE b))
  then 1%nat else 0%nat.

(** The number of page breaks that run through a word, for the pages [texts]
    put after the text [acc]. *)
Fixpoint junctions (acc : str) (texts : list str) : nat :=
  match texts with
  | [] => 0%nat
  | t :: rest => (glued acc t + junctions (acc ++ t) rest)%nat
  end.

(** The number of words of each text, added up. *)
Definition words_of_pages (texts : list str) : nat :=
  list_sum (map (fun t => length (split t)) texts).

Definition is_print (e : event) : bool :=
  match e with
  | EPrint _ => true
  | _ => false
  end.

(** The text holds a paragraph separator at some position. *)
Definition has_separator (s : str) : Prop :=
  exists a b, s = a ++ b /\ match_sep b <> None.

Definition blank (s : str) : Prop := Forall (fun c => isspace c = true) s.

(** Neither the first nor the last character is whitespace. *)
Definition trimmed (s : str) : Prop := s <> [] /\ strip s = s.

(** [ceil(n / d)] on non-negative integers. *)
Definition ceil_div (n d : Z) : Z := (n + d - 1) / d.

(** More surroundings: a document of two pages, a document whose second page
    cannot be read, a document that cannot be opened, a service that fails
    on every other request, and environments with and without a key. *)
Definition page_one : str := of_string "Short one." ++ [LF; LF] ++ of_string "Sho".
Definition page_two : str := of_string "rt two." ++ [LF; LF] ++ example_p3.

Definition pdf_two_pages (file_path : string)
    : result (list Extractor.page) :=
  Ok [Ok page_one; Ok page_two].

Definition pdf_bad_page (file_path : string)
    : result (list Extractor.page) :=
  Ok [Ok example_p1; Raise "cannot decode page"%string; Ok example_p2].

Definition pdf_missing (file_path : string)
    : result (list Extractor.page) :=
  Raise "No such file or directory"%string.

Definition pdf_blank (file_path : string)
    : result (list Extractor.page) :=
  Ok [Ok [SPACE; LF]; Ok []; Ok [LF; LF; SPACE]].

Definition service_flaky (calls : nat) (r : request)
    : result completion * nat :=
  (if Nat.even calls then Ok [Some (of_string "Politics")]
   else Raise "timeout"%string,
   S calls).

Definition env_no_key (name : string) : option str := None.


Definition env_key (name : string) : option str := Some (of_string "sk-test").

Definition client_ok (key : str) : result unit := Ok tt.

Definition client_refused (key : str) : result unit :=
  Raise "invalid client options"%string.

Definition uniform_text : str :=
  of_string "one two" ++ [LF; LF] ++ of_string "three" ++ [LF]
  ++ of_string "four" ++ [LF; SPACE; LF] ++ of_string "five  six".

(** * Properties *)

(** ** Strings *)

Section StringFacts.

Lemma isspace_SPACE : isspace SPACE = true.
Proof. reflexivity. Qed.

Lemma flush_length (cur : str) : (length (flush cur) <= length cur)%nat.
Proof. destruct cur; simpl; lia. Qed.

Lemma split_scan_app_word (w : str) :
  Forall nonspace w ->
  forall cur s, split_scan cur (w ++ s) = split_scan (rev w ++ cur) s.
Proof.
  induction 1 as [|c w Hc Hw IH]; intros cur s; simpl.
  - reflexivity.
  - rewrite Hc, IH, <- app_assoc. reflexivity.
Qed.

Lemma flush_is_word (cur : str) :
  Forall nonspace cur -> Forall is_word (flush cur).
Proof.
  intros H. destruct cur as [|c cur]; simpl; constructor; [|constructor].
  split.
  - intros E. apply (f_equal (@length _)) in E.
    rewrite length_app in E. simpl in E. lia.
  - apply Forall_app. split.
    + apply Forall_rev. now inversion H.
    + constructor; [now inversion H | constructor].
Qed.

Lemma split_scan_words (s : str) :
  forall cur, Forall nonspace cur -> Forall is_word (split_scan cur s).
Proof.
  induction s as [|c s IH]; intros cur Hcur; simpl.
  - now apply flush_is_word.
  - destruct (isspace c) eqn:Hc.
    + apply Forall_app. split; [now apply flush_is_word | apply IH; constructor].
    + apply IH. now constructor.
Qed.

Lemma split_words (s : str) : Forall is_word (split s).
Proof. apply split_scan_words. constructor. Qed.

Lemma flush_rev (w : str) : w <> [] -> flush (rev w) = [w].
Proof.
  intros Hne. unfold flush. destruct (rev w) eqn:E.
  - apply (f_equal (@rev _)) in E. rewrite rev_involutive in E. now subst.
  - rewrite <- E, rev_involutive. reflexivity.
Qed.

(** [" ".join(ws).split() == ws] for a list of words. *)
Lemma split_join (ws : list str) :
  Forall is_word ws -> split (join [SPACE] ws) = ws.
Proof.
  unfold split. induction 1 as [|w ws [Hne Hw] Hws IH]; [reflexivity|].
  destruct ws as [|w' ws].
  - simpl. rewrite <- (app_nil_r w) at 1.
    rewrite split_scan_app_word by assumption.
    rewrite app_nil_r. cbn [split_scan]. now apply flush_rev.
  - change (join [SPACE] (w :: w' :: ws))
      with (w ++ SPACE :: join [SPACE] (w' :: ws)).
    rewrite split_scan_app_word by assumption. cbn [split_scan].
    rewrite isspace_SPACE, app_nil_r, IH, flush_rev by assumption.
    reflexivity.
Qed.

(** Joined windows of words split back into the windows. *)
Lemma split_join_windows (wss : list (list str)) :
  Forall is_word (concat wss) ->
  map split (map (join [SPACE]) wss) = wss.
Proof.
  induction wss as [|ws wss IH]; simpl; intros H; [reflexivity|].
  apply Forall_app in H. destruct H as [H1 H2].
  now rewrite split_join, IH.
Qed.

(** A text without a word holds only whitespace. *)
Lemma split_scan_nil (s : str) :
  forall cur, split_scan cur s = [] -> cur = [] /\ Forall (fun c => isspace c = true) s.
Proof.
  induction s as [|c s IH]; intros cur H; simpl in H.
  - destruct cur; [auto | discriminate].
  - destruct (isspace c) eqn:Hc.
    + apply app_eq_nil in H. destruct H as [H1 H2].
      destruct cur; [|discriminate]. apply IH in H2. destruct H2; auto.
    + apply IH in H. destruct H; discriminate.
Qed.

Lemma lstrip_head (s : str) c r : lstrip s = c :: r -> nonspace c.
Proof.
  induction s as [|a s IH]; simpl; [discriminate|].
  destruct (isspace a) eqn:Ha; [assumption|].
  intros E. injection E as -> _. exact Ha.
Qed.

Lemma lstrip_incl (s : str) c : In c (lstrip s) -> In c s.
Proof.
  induction s as [|a s IH]; simpl; [tauto|].
  destruct (isspace a); [auto | simpl; tauto].
Qed.

Lemma lstrip_length (s : str) : (length (lstrip s) <= length s)%nat.
Proof.
  induction s as [|a s IH]; simpl; [lia|].
  destruct (isspace a); simpl; lia.
Qed.

Lemma strip_length (s : str) : (length (strip s) <= length s)%nat.
Proof.
  unfold strip, rstrip. rewrite length_rev.
  etransitivity; [apply lstrip_length|]. rewrite length_rev.
  apply lstrip_length.
Qed.

(** A non-empty [strip] result holds a non-space character. *)
Lemma strip_nonspace (s : str) :
  strip s <> [] -> exists c, In c (strip s) /\ nonspace c.
Proof.
  unfold strip, rstrip. intros H.
  destruct (lstrip (rev (lstrip s))) as [|c r] eqn:E; [now elim H|].
  exists c. split.
  - rewrite <- in_rev. now left.
  - eapply lstrip_head. exact E.
Qed.

Lemma lstrip_spaces (s : str) :
  Forall (fun c => isspace c = true) s -> lstrip s = [].
Proof. induction 1 as [|c s Hc _ IH]; simpl; [|rewrite Hc]; auto. Qed.

Lemma strip_spaces (s : str) :
  Forall (fun c => isspace c = true) s -> strip s = [].
Proof. intros H. unfold strip. rewrite lstrip_spaces by assumption. reflexivity. Qed.

Lemma split_scan_length (s : str) :
  forall cur, (length (split_scan cur s) <= length cur + length s)%nat.
Proof.
  induction s as [|c s IH]; intros cur; simpl.
  - pose proof (flush_length cur). lia.
  - destruct (isspace c).
    + rewrite length_app. pose proof (flush_length cur).
      specialize (IH []). simpl in IH. lia.
    + specialize (IH (c :: cur)). simpl in IH. lia.
Qed.

Lemma split_length (s : str) : (length (split s) <= length s)%nat.
Proof. apply (split_scan_length s []). Qed.

End StringFacts.

(** ** The paragraph separator and Step 1 *)

(** The scan on small inputs: a separator may hold blank lines with spaces,
    a single newline does not separate, and a separator at either end
    leaves an empty piece. *)
Example re_split_spaced_blank_lines :
  re_split (of_string "a" ++ [LF; SPACE; LF; LF; SPACE] ++ of_string "b"
            ++ [LF; LF] ++ of_string "c" ++ [LF])
  = [of_string "a"; SPACE :: of_string "b"; of_string "c" ++ [LF]].
Proof. reflexivity. Qed.

Example re_split_empty : re_split [] = [[]].
Proof. reflexivity. Qed.

Example re_split_only_separator : re_split [LF; LF] = [[]; []].
Proof. reflexivity. Qed.

Example re_split_single_newline :
  re_split (of_string "x" ++ [LF; LF; LF] ++ of_string "y"
            ++ [LF; SPACE] ++ of_string "z" ++ [LF; LF])
  = [of_string "x"; of_string "y" ++ [LF; SPACE] ++ of_string "z"; []].
Proof. reflexivity. Qed.

Example split_strip_small :
  split (of_string "  two   words ") = [of_string "two"; of_string "words"]
  /\ strip (of_string "  two   words ") = of_string "two   words"
  /\ slice [1; 2; 3; 4; 5] 3 10 = [4; 5]
  /\ slice [1; 2; 3; 4; 5] (-2) 10 = [4; 5].
Proof. repeat split. Qed.

Section SeparatorFacts.

Lemma match_ws_nl_suffix (s : str) :
  forall rest, match_ws_nl s = Some rest ->
  exists pre, pre <> [] /\ s = pre ++ rest.
Proof.
  induction s as [|c r IH]; intros rest H; simpl in H; [discriminate|].
  destruct (isspace c); [|discriminate].
  destruct (match_ws_nl r) as [rest'|] eqn:E.
  - injection H as <-. destruct (IH _ eq_refl) as (pre & _ & ->).
    exists (c :: pre). split; [discriminate | reflexivity].
  - destruct (is_newline c); [|discriminate]. injection H as <-.
    exists [c]. split; [discriminate | reflexivity].
Qed.

Lemma match_sep_suffix (s rest : str) :
  match_sep s = Some rest -> exists pre, pre <> [] /\ s = pre ++ rest.
Proof.
  destruct s as [|c r]; simpl; [discriminate|].
  destruct (is_newline c); [|discriminate]. intros H.
  apply match_ws_nl_suffix in H. destruct H as (pre & _ & ->).
  exists (c :: pre). split; [discriminate | reflexivity].
Qed.

(** Every piece returned by the scan is a contiguous part of its input. *)
Lemma re_split_scan_part (fuel : nat) :
  forall cur s p, In p (re_split_scan fuel cur s) ->
  exists a b, rev cur ++ s = a ++ p ++ b.
Proof.
  induction fuel as [|fuel IH]; intros cur s p H; simpl in H.
  - destruct H as [<-|[]]. exists [], []. now rewrite app_nil_r.
  - destruct s as [|c r].
    + destruct H as [<-|[]]. exists [], []. reflexivity.
    + destruct (match_sep (c :: r)) as [rest|] eqn:E.
      * destruct H as [<-|H].
        -- exists [], (c :: r). reflexivity.
        -- apply IH in H. destruct H as (a & b & H). simpl in H.
           apply match_sep_suffix in E. destruct E as (pre & _ & E).
           exists (rev cur ++ pre ++ a), b.
           rewrite E, H, <- !app_assoc. reflexivity.
      * apply IH in H. destruct H as (a & b & H).
        exists a, b. rewrite <- H. simpl. now rewrite <- app_assoc.
Qed.

Lemma re_split_part (text p : str) :
  In p (re_split text) -> exists a b, text = a ++ p ++ b.
Proof. intros H. apply re_split_scan_part in H. exact H. Qed.

(** The fuel of the scan is only a device: any budget above the length of
    the input gives the same pieces. *)
Lemma re_split_scan_fuel (fuel : nat) :
  forall fuel' cur s, (length s < fuel)%nat -> (length s < fuel')%nat ->
  re_split_scan fuel cur s = re_split_scan fuel' cur s.
Proof.
  induction fuel as [|fuel IH]; intros fuel' cur s H H'; [lia|].
  destruct fuel' as [|fuel']; [lia|]. simpl.
  destruct s as [|c r]; [reflexivity|].
  destruct (match_sep (c :: r)) as [rest|] eqn:E.
  - f_equal. apply match_sep_suffix in E. destruct E as (pre & Hpre & E).
    apply (f_equal (@length _)) in E. rewrite length_app in E.
    destruct pre; [now elim Hpre|]. simpl in *. apply IH; lia.
  - simpl in *. apply IH; lia.
Qed.

(** The two equations of [re.split]: a separator at the head of the rest
    closes the current piece; otherwise the scan moves on by one
    character. *)
Lemma re_split_scan_sep (cur s rest : str) :
  match_sep s = Some rest ->
  re_split_scan (S (length s)) cur s
  = rev cur :: re_split_scan (S (length rest)) [] rest.
Proof.
  intros E. destruct s as [|c r]; [discriminate|].
  remember (re_split_scan (S (length rest)) [] rest) as pieces eqn:P.
  cbn [re_split_scan]. rewrite E. f_equal. subst pieces.
  apply match_sep_suffix in E. destruct E as (pre & Hpre & E).
  apply (f_equal (@length _)) in E. rewrite length_app in E.
  destruct pre; [now elim Hpre|]. simpl in E.
  apply re_split_scan_fuel; simpl; lia.
Qed.

Lemma re_split_scan_char (cur : str) (c : char) (r : str) :
  match_sep (c :: r) = None ->
  re_split_scan (S (length (c :: r))) cur (c :: r)
  = re_split_scan (S (length r)) (c :: cur) r.
Proof.
  intros E.
  remember (re_split_scan (S (length r)) (c :: cur) r) as pieces eqn:P.
  cbn [re_split_scan]. rewrite E. subst pieces. reflexivity.
Qed.

Lemma paragraphs_in (text p : str) :
  In p (paragraphs text) ->
  p <> [] /\ exists raw, In raw (re_split text) /\ p = strip raw.
Proof.
  unfold paragraphs. rewrite in_map_iff.
  intros (raw & <- & H). apply filter_In in H. destruct H as [H T].
  split; [|eauto]. destruct (strip raw); [discriminate | discriminate].
Qed.

(** Step 1 keeps only paragraphs with at least one word. *)
Lemma paragraphs_word_count (text p : str) :
  In p (paragraphs text) -> 1 <= word_count p.
Proof.
  intros H. apply paragraphs_in in H. destruct H as (Hne & raw & _ & ->).
  apply strip_nonspace in Hne. destruct Hne as (c & Hin & Hc).
  unfold word_count, split.
  destruct (split_scan [] (strip raw)) eqn:E; [|simpl; lia].
  apply split_scan_nil in E. destruct E as [_ E].
  rewrite Forall_forall in E. apply E in Hin. unfold nonspace in Hc.
  congruence.
Qed.

Lemma paragraphs_length (text p : str) :
  In p (paragraphs text) -> (length (split p) <= length text)%nat.
Proof.
  intros H. apply paragraphs_in in H. destruct H as (_ & raw & Hraw & ->).
  apply re_split_part in Hraw. destruct Hraw as (a & b & ->).
  pose proof (split_length (strip raw)). pose proof (strip_length raw).
  rewrite !length_app. lia.
Qed.

Lemma filter_none {A : Type} (f : A -> bool) (l : list A) :
  (forall x, In x l -> f x = false) -> filter f l = [].
Proof.
  induction l as [|x l IH]; intros H; simpl; [reflexivity|].
  rewrite (H x) by now left. apply IH. intros y Hy. apply H. now right.
Qed.

(** Empty or whitespace-only text has no paragraph. *)
Lemma paragraphs_blank (text : str) :
  Forall (fun c => isspace c = true) text -> paragraphs text = [].
Proof.
  intros H. unfold paragraphs. rewrite filter_none; [reflexivity|].
  intros raw Hraw. apply re_split_part in Hraw. destruct Hraw as (a & b & ->).
  apply Forall_app in H. destruct H as [_ H].
  apply Forall_app in H. destruct H as [H _].
  now rewrite strip_spaces.
Qed.

End SeparatorFacts.

(** ** Step 2: the statistics *)

Section StatisticsFacts.

Lemma fold_left_add (xs : list Z) :
  forall a, fold_left Z.add xs a = a + fold_left Z.add xs 0.
Proof.
  induction xs as [|x xs IH]; intros a; simpl; [lia|].
  rewrite (IH (a + x)), (IH x). lia.
Qed.

Lemma sum_cons (x : Z) (xs : list Z) : sum (x :: xs) = x + sum xs.
Proof. unfold sum. simpl. apply fold_left_add. Qed.

Lemma total_words_cons (p : str) (ps : list str) :
  total_words (p :: ps) = word_count p + total_words ps.
Proof. unfold total_words. simpl. apply sum_cons. Qed.

Lemma num_paragraphs_le_total_words (ps : list str) :
  Forall (fun p => 1 <= word_count p) ps ->
  num_paragraphs ps <= total_words ps.
Proof.
  unfold num_paragraphs.
  induction 1 as [|p ps Hp _ IH]; [reflexivity|].
  rewrite total_words_cons. simpl length. lia.
Qed.

Lemma avg_words_nonempty (ps : list str) :
  ps <> [] ->
  avg_words ps = (inject_Z (total_words ps) / inject_Z (num_paragraphs ps))%Q.
Proof.
  intros H. unfold avg_words.
  destruct (0 <? num_paragraphs ps) eqn:E; [reflexivity|].
  apply Z.ltb_ge in E. unfold num_paragraphs in E.
  destruct ps; [now elim H | simpl length in E; lia].
Qed.

Lemma avg_words_ge_1 (ps : list str) :
  ps <> [] -> Forall (fun p => 1 <= word_count p) ps ->
  (1 <= avg_words ps)%Q.
Proof.
  intros Hne Hwc. rewrite avg_words_nonempty by assumption.
  assert (0 < num_paragraphs ps).
  { unfold num_paragraphs. destruct ps; [now elim Hne | simpl length; lia]. }
  apply Qle_shift_div_l.
  - change 0%Q with (inject_Z 0). now rewrite <- Zlt_Qlt.
  - rewrite Qmult_1_l, <- Zle_Qle.
    now apply num_paragraphs_le_total_words.
Qed.

Lemma int_ge_1 (x : Q) : (1 <= x)%Q -> 1 <= int x.
Proof.
  unfold Qle, int. destruct x as [n d]. simpl. intros H.
  rewrite Z.quot_div_nonneg by lia.
  apply Z.div_le_lower_bound; lia.
Qed.

(** On a non-negative number, [int] is the floor. *)
Lemma int_floor (x : Q) : (0 <= x)%Q -> int x = Qfloor x.
Proof.
  unfold Qle, int, Qfloor. destruct x as [n d]. simpl. intros H.
  apply Z.quot_div_nonneg; lia.
Qed.

Lemma gt_iff (n : Z) (x : Q) : gt n x = true <-> (x < inject_Z n)%Q.
Proof.
  unfold gt. rewrite negb_true_iff, <- not_true_iff_false, Qle_bool_iff.
  split; [apply Qnot_le_lt | apply Qlt_not_le].
Qed.

Lemma gt_false_iff (n : Z) (x : Q) : gt n x = false <-> (inject_Z n <= x)%Q.
Proof.
  unfold gt. rewrite negb_false_iff. apply Qle_bool_iff.
Qed.

End StatisticsFacts.

(** ** Step 3: the loops *)

Section LoopFacts.

Lemma slice_window {A : Type} (l : list A) (start size : Z) :
  0 <= start -> 0 <= size ->
  slice l start (start + size)
  = firstn (Z.to_nat size) (skipn (Z.to_nat start) l).
Proof.
  intros Hs Hz. unfold slice, slice_bound.
  destruct (start <? 0) eqn:E1; [apply Z.ltb_lt in E1; lia|].
  destruct (start + size <? 0) eqn:E2; [apply Z.ltb_lt in E2; lia|].
  destruct (Z_le_gt_dec start (Z.of_nat (length l))) as [Hle|Hgt].
  - rewrite (Z.min_l start) by assumption.
    destruct (Z_le_gt_dec (start + size) (Z.of_nat (length l))) as [Hle2|Hgt2].
    + rewrite Z.min_l by assumption. f_equal. lia.
    + rewrite Z.min_r by lia.
      rewrite !firstn_all2; [reflexivity | |]; rewrite length_skipn; lia.
  - rewrite !Z.min_r by lia. rewrite Z.sub_diag. simpl.
    rewrite skipn_all2 by lia. now rewrite firstn_nil.
Qed.

Lemma windows_nil {A : Type} (fuel size : nat) :
  windows fuel size (@nil A) = [].
Proof. destruct fuel; reflexivity. Qed.

Lemma windows_spec {A : Type} (size : nat) :
  (1 <= size)%nat ->
  forall fuel (l : list A), (length l <= fuel)%nat ->
  consecutive_windows size l (windows fuel size l).
Proof.
  intros Hsize. unfold consecutive_windows.
  induction fuel as [|fuel IH]; intros l Hl.
  - destruct l; [|simpl in Hl; lia]. simpl. repeat split; constructor.
  - destruct l as [|x l']; [simpl; repeat split; constructor|].
    remember (x :: l') as l eqn:L.
    assert (Hpos : (1 <= length l)%nat) by (subst l; simpl; lia).
    assert (W : windows (S fuel) size l
                = firstn size l :: windows fuel size (skipn size l))
      by (subst l; reflexivity).
    rewrite W. clear W L x l'.
    destruct (IH (skipn size l)) as (Hc & Hb & Hr).
    { rewrite length_skipn. lia. }
    split; [|split].
    + simpl. rewrite Hc. apply firstn_skipn.
    + constructor; [|assumption]. rewrite length_firstn. lia.
    + destruct (skipn size l) as [|y r] eqn:E.
      * rewrite windows_nil. simpl. constructor.
      * assert (size < length l)%nat.
        { apply (f_equal (@length _)) in E. rewrite length_skipn in E.
          simpl in E. lia. }
        destruct (windows fuel size (y :: r)) as [|w ws] eqn:W.
        -- simpl. constructor.
        -- change (removelast (firstn size l :: w :: ws))
             with (firstn size l :: removelast (w :: ws)).
           constructor; [|assumption]. rewrite length_firstn. lia.
Qed.

(** The list built so far is only appended to. *)
Lemma while_start_acc (fuel : nat) (avg : Q) (words : list str) :
  forall start adjusted,
  while_start fuel avg words start adjusted
  = option_map (app adjusted) (while_start fuel avg words start []).
Proof.
  induction fuel as [|fuel IH]; intros start adjusted; simpl; [reflexivity|].
  destruct (start <? Z.of_nat (length words)).
  - rewrite IH. rewrite (IH _ [_]).
    destruct (while_start fuel avg words (start + int avg) []); simpl;
      [now rewrite <- app_assoc | reflexivity].
  - simpl. now rewrite app_nil_r.
Qed.

(** With a window of at least one word the inner loop exits, having
    appended the windows of the words from [start] on. *)
Lemma while_start_windows (avg : Q) (words : list str) :
  1 <= int avg ->
  forall fuel start, 0 <= start ->
  Z.max 0 (Z.of_nat (length words) - start) < Z.of_nat fuel ->
  while_start fuel avg words start []
  = Some (map (join [SPACE])
            (windows fuel (Z.to_nat (int avg))
               (skipn (Z.to_nat start) words))).
Proof.
  intros Hsize. induction fuel as [|fuel IH]; intros start Hs Hf.
  - lia.
  - cbn [while_start].
    destruct (start <? Z.of_nat (length words)) eqn:E.
    + apply Z.ltb_lt in E. rewrite while_start_acc, IH by lia.
      rewrite slice_window by lia. simpl option_map.
      destruct (skipn (Z.to_nat start) words) as [|w r] eqn:K.
      * apply (f_equal (@length _)) in K. rewrite length_skipn in K.
        simpl in K. lia.
      * cbn [windows]. rewrite <- K, skipn_skipn.
        replace (Z.to_nat (int avg) + Z.to_nat start)%nat
          with (Z.to_nat (start + int avg)) by lia.
        reflexivity.
    + apply Z.ltb_ge in E. rewrite skipn_all2 by lia.
      now rewrite windows_nil.
Qed.

(** A window of zero words never advances: the loop is still running
    after any number of tests. *)
Lemma while_start_stuck (avg : Q) (words : list str) :
  int avg = 0 -> words <> [] ->
  forall fuel adjusted, while_start fuel avg words 0 adjusted = None.
Proof.
  intros Hz Hne. induction fuel as [|fuel IH]; intros adjusted; simpl;
    [reflexivity|].
  destruct words as [|w ws]; [now elim Hne|].
  rewrite Hz. simpl. apply IH.
Qed.

End LoopFacts.

(** ** The segmenter as a whole *)

Lemma length_concat_nonempty {A B : Type} (P : A -> list B -> Prop)
    (l : list A) (cs : list (list B)) :
  Forall2 (fun x c => P x c /\ c <> []) l cs ->
  (length l <= length (concat cs))%nat.
Proof.
  induction 1 as [|x c l cs [_ Hne] _ IH]; simpl; [lia|].
  rewrite length_app. destruct c; [now elim Hne | simpl; lia].
Qed.

Section SegmenterFacts.

Variables (fuel : nat) (avg thr : Q).

Lemma for_body_acc (adjusted : list str) (p : str) :
  for_body fuel avg thr adjusted p
  = option_map (app adjusted) (for_body fuel avg thr [] p).
Proof.
  unfold for_body. destruct (gt (word_count p) thr).
  - apply while_start_acc.
  - reflexivity.
Qed.

Lemma for_paragraph_acc (ps : list str) :
  forall adjusted,
  for_paragraph fuel avg thr ps adjusted
  = option_map (app adjusted) (for_paragraph fuel avg thr ps []).
Proof.
  induction ps as [|p ps IH]; intros adjusted; simpl.
  - now rewrite app_nil_r.
  - rewrite for_body_acc.
    destruct (for_body fuel avg thr [] p) as [c|]; simpl; [|reflexivity].
    rewrite IH, (IH c).
    destruct (for_paragraph fuel avg thr ps []); simpl;
      [now rewrite app_assoc | reflexivity].
Qed.

(** The output for [before ++ p :: after] is the output for [before], then
    what [p] contributes, then the output for [after]. *)
Lemma for_paragraph_at (before after : list str) (p : str)
    (out_before chunks out_after : list str) :
  for_paragraph fuel avg thr before [] = Some out_before ->
  for_body fuel avg thr [] p = Some chunks ->
  for_paragraph fuel avg thr after [] = Some out_after ->
  for_paragraph fuel avg thr (before ++ p :: after) []
  = Some (out_before ++ chunks ++ out_after).
Proof.
  revert out_before. induction before as [|q before IH];
    intros out_before Hb Hp Ha; simpl in *.
  - injection Hb as <-. rewrite Hp, for_paragraph_acc, Ha. reflexivity.
  - destruct (for_body fuel avg thr [] q) as [c|]; [|discriminate].
    rewrite for_paragraph_acc in Hb.
    destruct (for_paragraph fuel avg thr before []) as [o|] eqn:E;
      [|discriminate].
    injection Hb as <-.
    rewrite for_paragraph_acc, (IH o eq_refl Hp Ha). simpl.
    now rewrite <- app_assoc.
Qed.

Hypothesis window : 1 <= int avg.

(** What one paragraph contributes when the budget covers its words. *)
Lemma for_body_total (p : str) :
  1 <= word_count p -> (length (split p) < fuel)%nat ->
  exists chunks,
    for_body fuel avg thr [] p = Some chunks
    /\ chunks <> []
    /\ concat (map split chunks) = split p
    /\ (gt (word_count p) thr = false -> chunks = [p])
    /\ (gt (word_count p) thr = true ->
        exists wss,
          chunks = map (join [SPACE]) wss
          /\ consecutive_windows (Z.to_nat (int avg)) (split p) wss).
Proof.
  intros Hwc Hf. unfold for_body.
  destruct (gt (word_count p) thr) eqn:G.
  - rewrite while_start_windows by (assumption || lia). simpl skipn.
    eexists. split; [reflexivity|].
    assert (W : consecutive_windows (Z.to_nat (int avg)) (split p)
                  (windows fuel (Z.to_nat (int avg)) (split p)))
      by (apply windows_spec; lia).
    split; [|split; [|split; [discriminate | intros _; eauto]]].
    + intros E. apply map_eq_nil in E. destruct W as [W _].
      rewrite E in W. simpl in W. unfold word_count in Hwc.
      rewrite <- W in Hwc. simpl in Hwc. lia.
    + destruct W as [W _]. rewrite split_join_windows; [exact W|].
      rewrite W. apply split_words.
  - eexists. split; [reflexivity|]. split; [discriminate|].
    split; [simpl; apply app_nil_r|].
    split; [reflexivity | discriminate].
Qed.

(** The loop over the paragraphs returns the contributions of the
    paragraphs, one after the other; none is empty and each holds the words
    of its paragraph. *)
Lemma for_paragraph_total (ps : list str) :
  Forall (fun p => 1 <= word_count p /\ (length (split p) < fuel)%nat) ps ->
  exists contributions,
    for_paragraph fuel avg thr ps [] = Some (concat contributions)
    /\ Forall2 (fun p c => for_body fuel avg thr [] p = Some c
                          /\ c <> []
                          /\ concat (map split c) = split p)
         ps contributions.
Proof.
  induction 1 as [|p ps [Hwc Hf] _ (cs & IH & Hcs)]; simpl.
  - exists []. split; [reflexivity | constructor].
  - destruct (for_body_total p Hwc Hf) as (c & Hc & Hne & Hw & _).
    rewrite Hc, for_paragraph_acc, IH. simpl.
    exists (c :: cs). split; [reflexivity|]. constructor; auto.
Qed.

End SegmenterFacts.

Section TextFacts.

Variable text : str.

Lemma text_words :
  Forall (fun p => 1 <= word_count p) (paragraphs text).
Proof. apply Forall_forall. apply paragraphs_word_count. Qed.

Lemma text_window :
  paragraphs text <> [] -> 1 <= int (avg_words (paragraphs text)).
Proof.
  intros H. apply int_ge_1. apply avg_words_ge_1; [assumption|].
  apply text_words.
Qed.

Lemma text_fuel (fuel : nat) (ps : list str) :
  (length text < fuel)%nat -> incl ps (paragraphs text) ->
  Forall (fun p => 1 <= word_count p /\ (length (split p) < fuel)%nat) ps.
Proof.
  intros Hf Hin. apply Forall_forall. intros p Hp. apply Hin in Hp. split.
  - now apply paragraphs_word_count in Hp.
  - apply paragraphs_length in Hp. lia.
Qed.

(** The segmenter returns, and its output is laid out paragraph by
    paragraph. *)
Lemma split_into_paragraphs_at (fuel : nat) (before after : list str)
    (p : str) :
  (length text < fuel)%nat ->
  paragraphs text = before ++ p :: after ->
  exists out_before chunks out_after,
    split_into_paragraphs fuel text
    = Some (out_before ++ chunks ++ out_after)
    /\ rechunk fuel text before = Some out_before
    /\ chunks_of fuel text p = Some chunks
    /\ rechunk fuel text after = Some out_after
    /\ (gt (word_count p) (length_threshold (avg_words (paragraphs text)))
        = false -> chunks = [p])
    /\ (gt (word_count p) (length_threshold (avg_words (paragraphs text)))
        = true ->
        exists wss,
          chunks = map (join [SPACE]) wss
          /\ consecutive_windows
               (Z.to_nat (int (avg_words (paragraphs text)))) (split p) wss).
Proof.
  intros Hf E.
  assert (W : 1 <= int (avg_words (paragraphs text))).
  { apply text_window. rewrite E. now destruct before. }
  unfold split_into_paragraphs, rechunk, chunks_of.
  set (avg := avg_words (paragraphs text)) in *.
  destruct (for_paragraph_total fuel avg (length_threshold avg) W before)
    as (cb & Hb & _).
  { apply text_fuel; [assumption|]. rewrite E. apply incl_appl, incl_refl. }
  destruct (for_paragraph_total fuel avg (length_threshold avg) W after)
    as (ca & Ha & _).
  { apply text_fuel; [assumption|]. rewrite E.
    apply incl_appr, incl_tl, incl_refl. }
  destruct (for_body_total fuel avg (length_threshold avg) W p)
    as (c & Hc & _ & _ & Hshort & Hlong).
  { apply paragraphs_word_count with text. rewrite E.
    apply in_or_app. right. now left. }
  { assert (In p (paragraphs text))
      by (rewrite E; apply in_or_app; right; now left).
    apply paragraphs_length in H. lia. }
  exists (concat cb), c, (concat ca). rewrite E.
  rewrite (for_paragraph_at _ _ _ _ _ _ _ _ _ Hb Hc Ha). auto 10.
Qed.

(** The segmenter returns the contributions of the paragraphs of Step 1. *)
Lemma split_into_paragraphs_total (fuel : nat) :
  (length text < fuel)%nat ->
  exists contributions,
    split_into_paragraphs fuel text = Some (concat contributions)
    /\ Forall2 (fun p c => chunks_of fuel text p = Some c
                          /\ c <> []
                          /\ concat (map split c) = split p)
         (paragraphs text) contributions.
Proof.
  intros Hf. unfold split_into_paragraphs, chunks_of.
  destruct (paragraphs text) as [|p ps] eqn:E.
  - exists []. split; [reflexivity | constructor].
  - rewrite <- E. apply for_paragraph_total.
    + apply text_window. rewrite E. discriminate.
    + apply text_fuel; [assumption | apply incl_refl].
Qed.

End TextFacts.

(** ** Claims about the segmenter *)

(** C1. For every text and every paragraph of it whose word count is
    strictly above the length threshold, the segmenter returns, the chunks it
    emits for that paragraph stand between the output for the paragraphs
    before it and the output for the paragraphs after it, and the words of
    these chunks, taken in output order, are exactly the words of the
    paragraph: none lost, none repeated, none moved. *)
Theorem split_chunks_roundtrip
    (text : str) (fuel : nat) (before after : list str) (p : str) :
  (length text < fuel)%nat ->
  paragraphs text = before ++ p :: after ->
  (length_threshold (avg_words (paragraphs text)) < inject_Z (word_count p))%Q ->
  exists out_before chunks out_after,
    split_into_paragraphs fuel text = Some (out_before ++ chunks ++ out_after)
    /\ rechunk fuel text before = Some out_before
    /\ chunks_of fuel text p = Some chunks
    /\ rechunk fuel text after = Some out_after
    /\ concat (map split chunks) = split p.
Proof.
  intros Hf E Hlong.
  destruct (split_into_paragraphs_at text fuel before after p Hf E)
    as (ob & c & oa & Hout & Hb & Hc & Ha & _ & Hw).
  apply gt_iff in Hlong. destruct (Hw Hlong) as (wss & -> & Hcat & _).
  exists ob, (map (join [SPACE]) wss), oa. repeat (split; [assumption|]).
  rewrite split_join_windows; [assumption|].
  rewrite Hcat. apply split_words.
Qed.

(** C3. For every text and every paragraph of Step 1 whose word count is at
    most the length threshold (equal to it included), the segmenter returns
    and the paragraph contributes exactly one entry, the trimmed paragraph
    itself, between the output for the paragraphs before it and the output
    for the paragraphs after it. *)
Theorem short_paragraph_kept
    (text : str) (fuel : nat) (before after : list str) (p : str) :
  (length text < fuel)%nat ->
  paragraphs text = before ++ p :: after ->
  (inject_Z (word_count p) <= length_threshold (avg_words (paragraphs text)))%Q ->
  exists out_before out_after,
    split_into_paragraphs fuel text = Some (out_before ++ [p] ++ out_after)
    /\ rechunk fuel text before = Some out_before
    /\ chunks_of fuel text p = Some [p]
    /\ rechunk fuel text after = Some out_after
    /\ exists raw, In raw (re_split text) /\ p = strip raw.
Proof.
  intros Hf E Hshort.
  destruct (split_into_paragraphs_at text fuel before after p Hf E)
    as (ob & c & oa & Hout & Hb & Hc & Ha & Hk & _).
  apply gt_false_iff in Hshort. rewrite (Hk Hshort) in *.
  exists ob, oa. repeat (split; [assumption|]).
  apply (paragraphs_in text). rewrite E. apply in_or_app. right. now left.
Qed.

(** C4. For every text and every paragraph whose word count is strictly
    above the length threshold, the segmenter returns and replaces the
    paragraph, at its position, by the space-joined consecutive windows of
    its words: the windows in order give back the word sequence, each holds
    [int(avg_words)] words, and only the last one may hold fewer (at least
    one). *)
Theorem long_paragraph_windows
    (text : str) (fuel : nat) (before after : list str) (p : str) :
  (length text < fuel)%nat ->
  paragraphs text = before ++ p :: after ->
  (length_threshold (avg_words (paragraphs text)) < inject_Z (word_count p))%Q ->
  exists out_before wss out_after,
    split_into_paragraphs fuel text
    = Some (out_before ++ map (join [SPACE]) wss ++ out_after)
    /\ rechunk fuel text before = Some out_before
    /\ chunks_of fuel text p = Some (map (join [SPACE]) wss)
    /\ rechunk fuel text after = Some out_after
    /\ consecutive_windows
         (Z.to_nat (int (avg_words (paragraphs text)))) (split p) wss
    /\ int (avg_words (paragraphs text)) = Qfloor (avg_words (paragraphs text))
    /\ 1 <= int (avg_words (paragraphs text)).
Proof.
  intros Hf E Hlong.
  destruct (split_into_paragraphs_at text fuel before after p Hf E)
    as (ob & c & oa & Hout & Hb & Hc & Ha & _ & Hw).
  apply gt_iff in Hlong. destruct (Hw Hlong) as (wss & -> & W).
  assert (Hne : paragraphs text <> []) by (rewrite E; now destruct before).
  exists ob, wss, oa. repeat (split; [assumption|]). split.
  - apply int_floor. apply Qle_trans with 1%Q; [discriminate|].
    apply avg_words_ge_1; [assumption | apply text_words].
  - now apply text_window.
Qed.

(** C5. For every text, the segmenter returns, and its output is made of one
    contribution per paragraph of Step 1, in order: no contribution is
    empty and each holds exactly the words of its paragraph, so paragraphs are
    subdivided, never merged or dropped, and the output has at least as many
    entries as there are paragraphs. *)
Theorem output_at_least_paragraphs (text : str) (fuel : nat) :
  (length text < fuel)%nat ->
  exists contributions,
    split_into_paragraphs fuel text = Some (concat contributions)
    /\ Forall2 (fun p c => chunks_of fuel text p = Some c
                          /\ c <> []
                          /\ concat (map split c) = split p)
         (paragraphs text) contributions
    /\ (length (paragraphs text) <= length (concat contributions))%nat.
Proof.
  intros Hf.
  destruct (split_into_paragraphs_total text fuel Hf) as (cs & Hrun & Hcs).
  exists cs. split; [exact Hrun|]. split; [exact Hcs|].
  apply length_concat_nonempty
    with (P := fun p c => chunks_of fuel text p = Some c).
  revert Hcs. apply Forall2_impl. tauto.
Qed.

(** C6. The mean is the sum of the word counts over the number of
    paragraphs, it is 0 when there is no paragraph, and the threshold is the
    mean times 1.20, that is the mean plus 20% of it. *)
Theorem threshold_is_mean_plus_20_percent (ps : list str) :
  total_words [] = 0
  /\ (forall p rest, total_words (p :: rest) = word_count p + total_words rest)
  /\ num_paragraphs ps = Z.of_nat (length ps)
  /\ (ps = [] -> avg_words ps = 0%Q)
  /\ (ps <> [] ->
      avg_words ps
      = (inject_Z (total_words ps) / inject_Z (num_paragraphs ps))%Q)
  /\ (length_threshold (avg_words ps) == avg_words ps * (120 # 100))%Q
  /\ (length_threshold (avg_words ps)
      == avg_words ps + (20 # 100) * avg_words ps)%Q.
Proof.
  split; [reflexivity|]. split; [apply total_words_cons|].
  split; [reflexivity|]. split; [now intros ->|].
  split; [apply avg_words_nonempty|].
  unfold length_threshold. split; field.
Qed.

(** C10. Every paragraph kept by Step 1 has at least one word; hence, when
    there is a paragraph, [avg_words >= 1] and the window [int(avg_words)]
    is at least 1, so that the index of the inner loop strictly increases;
    and the segmenter returns within any budget above the length of the
    text. *)
Theorem segmenter_terminates (text : str) :
  Forall (fun p => p <> [] /\ 1 <= word_count p) (paragraphs text)
  /\ (paragraphs text <> [] ->
      (1 <= avg_words (paragraphs text))%Q
      /\ 1 <= int (avg_words (paragraphs text))
      /\ forall start, start < start + int (avg_words (paragraphs text)))
  /\ (forall fuel, (length text < fuel)%nat ->
      exists out, split_into_paragraphs fuel text = Some out).
Proof.
  split; [|split].
  - apply Forall_forall. intros p Hp. split.
    + now apply paragraphs_in in Hp.
    + now apply paragraphs_word_count in Hp.
  - intros Hne. split; [|split].
    + apply avg_words_ge_1; [assumption | apply text_words].
    + now apply text_window.
    + intros start. pose proof (text_window text Hne). lia.
  - intros fuel Hf.
    destruct (split_into_paragraphs_total text fuel Hf) as (cs & H & _).
    eauto.
Qed.

(** A larger budget does not change a returned result. *)
Lemma while_start_more (avg : Q) (words : list str) (fuel : nat) :
  forall start adjusted out,
  while_start fuel avg words start adjusted = Some out ->
  while_start (S fuel) avg words start adjusted = Some out.
Proof.
  induction fuel as [|fuel IH]; intros start adjusted out H; [discriminate|].
  cbn [while_start] in H. remember (S fuel) as fuel' eqn:F.
  cbn [while_start].
  destruct (start <? Z.of_nat (length words)); [|exact H].
  subst fuel'. now apply IH.
Qed.

Lemma for_paragraph_more (avg thr : Q) (fuel : nat) (ps : list str) :
  forall adjusted out,
  for_paragraph fuel avg thr ps adjusted = Some out ->
  for_paragraph (S fuel) avg thr ps adjusted = Some out.
Proof.
  induction ps as [|p ps IH]; intros adjusted out H; [exact H|].
  cbn [for_paragraph] in *.
  destruct (for_body fuel avg thr adjusted p) as [a|] eqn:E; [|discriminate].
  assert (E' : for_body (S fuel) avg thr adjusted p = Some a).
  { unfold for_body in *. destruct (gt (word_count p) thr); [|exact E].
    now apply while_start_more. }
  rewrite E'. now apply IH.
Qed.

Lemma split_into_paragraphs_more (text : str) (fuel fuel' : nat) (out : list str) :
  (fuel <= fuel')%nat ->
  split_into_paragraphs fuel text = Some out ->
  split_into_paragraphs fuel' text = Some out.
Proof.
  induction 1 as [|fuel' _ IH]; intros H; [exact H|].
  apply for_paragraph_more. now apply IH.
Qed.

(** C2, as the code computes it.  On the worked example the segmenter finds
    three paragraphs of 2, 2 and 16 words, the mean is 20/3 (about 6.67),
    the threshold is 8, the window is 6 words, the third paragraph becomes
    three windows of 6, 6 and 4 words, the first two paragraphs are kept
    whole, and the output has 5 entries. *)
Theorem worked_example (fuel : nat) :
  (4 <= fuel)%nat ->
  paragraphs example_text = [example_p1; example_p2; example_p3]
  /\ map word_count (paragraphs example_text) = [2; 2; 16]
  /\ avg_words (paragraphs example_text) = 20 # 3
  /\ (666 # 100 < avg_words (paragraphs example_text) < 667 # 100)%Q
  /\ (length_threshold (avg_words (paragraphs example_text)) == 8)%Q
  /\ int (avg_words (paragraphs example_text)) = 6
  /\ split_into_paragraphs fuel example_text
     = Some ([example_p1; example_p2] ++ example_chunks)
  /\ map (fun c => length (split c)) ([example_p1; example_p2] ++ example_chunks)
     = [2; 2; 6; 6; 4]%nat
  /\ length ([example_p1; example_p2] ++ example_chunks) = 5%nat.
Proof.
  intros Hf.
  split; [vm_compute; reflexivity|]. split; [vm_compute; reflexivity|].
  split; [vm_compute; reflexivity|].
  split; [split; vm_compute; reflexivity|].
  split; [vm_compute; reflexivity|]. split; [vm_compute; reflexivity|].
  split; [|split; vm_compute; reflexivity].
  apply (split_into_paragraphs_more example_text 4 fuel _ Hf).
  vm_compute. reflexivity.
Qed.

Lemma worked_example_witness :
  (4 <= 4)%nat
  /\ split_into_paragraphs 4 example_text
     = Some ([example_p1; example_p2] ++ example_chunks).
Proof.
  split; [lia|]. apply (worked_example 4). lia.
Defined.

(** C2, as it is worded: the third paragraph does not have 18 words, the
    mean is not 22/3, the threshold is not 8.8, the window is not 7 and the
    windows are not of 7, 7 and 4 words. *)
Lemma worked_example_as_worded_fails :
  map word_count (paragraphs example_text) <> [2; 2; 18]
  /\ ~ (avg_words (paragraphs example_text) == 22 # 3)%Q
  /\ ~ (length_threshold (avg_words (paragraphs example_text)) == 88 # 10)%Q
  /\ int (avg_words (paragraphs example_text)) <> 7
  /\ option_map (map (fun c => length (split c)))
       (split_into_paragraphs (S (length example_text)) example_text)
     <> Some [2; 2; 7; 7; 4]%nat.
Proof.
  repeat split; vm_compute; discriminate.
Qed.

(** The decisions taken on the worked example are the same under IEEE-754
    double arithmetic. *)
Lemma worked_example_binary64 :
  let ps := paragraphs example_text in
  let avg := Binary64.avg_words (total_words ps) (num_paragraphs ps) in
  let thr := Binary64.length_threshold avg in
  Binary64.int avg = int (avg_words ps)
  /\ map (fun p => Binary64.gt (word_count p) thr) ps
     = map (fun p => gt (word_count p) (length_threshold (avg_words ps))) ps
  /\ thr = Binary64.of_int 8.
Proof. vm_compute. repeat split. Qed.

Lemma split_chunks_roundtrip_witness :
  (length example_text < 200)%nat
  /\ paragraphs example_text = [example_p1; example_p2] ++ example_p3 :: []
  /\ (length_threshold (avg_words (paragraphs example_text))
      < inject_Z (word_count example_p3))%Q
  /\ exists out_before chunks out_after,
       split_into_paragraphs 200 example_text
       = Some (out_before ++ chunks ++ out_after)
       /\ rechunk 200 example_text [example_p1; example_p2] = Some out_before
       /\ chunks_of 200 example_text example_p3 = Some chunks
       /\ rechunk 200 example_text [] = Some out_after
       /\ concat (map split chunks) = split example_p3.
Proof.
  assert (H1 : (length example_text < 200)%nat) by (vm_compute; lia).
  assert (H2 : paragraphs example_text
               = [example_p1; example_p2] ++ example_p3 :: [])
    by (vm_compute; reflexivity).
  assert (H3 : (length_threshold (avg_words (paragraphs example_text))
                < inject_Z (word_count example_p3))%Q)
    by (vm_compute; reflexivity).
  split; [exact H1|]. split; [exact H2|]. split; [exact H3|].
  exact (split_chunks_roundtrip example_text 200
           [example_p1; example_p2] [] example_p3 H1 H2 H3).
Defined.

Lemma short_paragraph_kept_witness :
  (length example_text < 200)%nat
  /\ paragraphs example_text = [] ++ example_p1 :: [example_p2; example_p3]
  /\ (inject_Z (word_count example_p1)
      <= length_threshold (avg_words (paragraphs example_text)))%Q
  /\ exists out_before out_after,
       split_into_paragraphs 200 example_text
       = Some (out_before ++ [example_p1] ++ out_after)
       /\ rechunk 200 example_text [] = Some out_before
       /\ chunks_of 200 example_text example_p1 = Some [example_p1]
       /\ rechunk 200 example_text [example_p2; example_p3] = Some out_after
       /\ exists raw, In raw (re_split example_text) /\ example_p1 = strip raw.
Proof.
  assert (H1 : (length example_text < 200)%nat) by (vm_compute; lia).
  assert (H2 : paragraphs example_text
               = [] ++ example_p1 :: [example_p2; example_p3])
    by (vm_compute; reflexivity).
  assert (H3 : (inject_Z (word_count example_p1)
                <= length_threshold (avg_words (paragraphs example_text)))%Q)
    by (vm_compute; discriminate).
  split; [exact H1|]. split; [exact H2|]. split; [exact H3|].
  exact (short_paragraph_kept example_text 200
           [] [example_p2; example_p3] example_p1 H1 H2 H3).
Defined.

Lemma long_paragraph_windows_witness :
  (length example_text < 200)%nat
  /\ paragraphs example_text = [example_p1; example_p2] ++ example_p3 :: []
  /\ (length_threshold (avg_words (paragraphs example_text))
      < inject_Z (word_count example_p3))%Q
  /\ exists out_before wss out_after,
       split_into_paragraphs 200 example_text
       = Some (out_before ++ map (join [SPACE]) wss ++ out_after)
       /\ rechunk 200 example_text [example_p1; example_p2] = Some out_before
       /\ chunks_of 200 example_text example_p3
          = Some (map (join [SPACE]) wss)
       /\ rechunk 200 example_text [] = Some out_after
       /\ consecutive_windows
            (Z.to_nat (int (avg_words (paragraphs example_text))))
            (split example_p3) wss
       /\ int (avg_words (paragraphs example_text))
          = Qfloor (avg_words (paragraphs example_text))
       /\ 1 <= int (avg_words (paragraphs example_text)).
Proof.
  assert (H1 : (length example_text < 200)%nat) by (vm_compute; lia).
  assert (H2 : paragraphs example_text
               = [example_p1; example_p2] ++ example_p3 :: [])
    by (vm_compute; reflexivity).
  assert (H3 : (length_threshold (avg_words (paragraphs example_text))
                < inject_Z (word_count example_p3))%Q)
    by (vm_compute; reflexivity).
  split; [exact H1|]. split; [exact H2|]. split; [exact H3|].
  exact (long_paragraph_windows example_text 200
           [example_p1; example_p2] [] example_p3 H1 H2 H3).
Defined.

Lemma output_at_least_paragraphs_witness :
  (length example_text < 200)%nat
  /\ exists contributions,
       split_into_paragraphs 200 example_text = Some (concat contributions)
       /\ Forall2 (fun p c => chunks_of 200 example_text p = Some c
                             /\ c <> []
                             /\ concat (map split c) = split p)
            (paragraphs example_text) contributions
       /\ (length (paragraphs example_text)
           <= length (concat contributions))%nat.
Proof.
  assert (H1 : (length example_text < 200)%nat) by (vm_compute; lia).
  split; [exact H1|].
  exact (output_at_least_paragraphs example_text 200 H1).
Defined.

Lemma threshold_is_mean_plus_20_percent_witness :
  [example_p1] <> []
  /\ avg_words [example_p1]
     = (inject_Z (total_words [example_p1])
        / inject_Z (num_paragraphs [example_p1]))%Q.
Proof.
  assert (H : [example_p1] <> []) by discriminate.
  split; [exact H|].
  exact (proj1 (proj2 (proj2 (proj2 (proj2
           (threshold_is_mean_plus_20_percent [example_p1]))))) H).
Defined.

Lemma segmenter_terminates_witness :
  paragraphs example_text <> []
  /\ (length example_text < 200)%nat
  /\ 1 <= int (avg_words (paragraphs example_text))
  /\ exists out, split_into_paragraphs 200 example_text = Some out.
Proof.
  assert (H0 : paragraphs example_text <> []) by (vm_compute; discriminate).
  assert (H1 : (length example_text < 200)%nat) by (vm_compute; lia).
  split; [exact H0|]. split; [exact H1|].
  destruct (segmenter_terminates example_text) as (_ & Havg & Hrun).
  split.
  - exact (proj1 (proj2 (Havg H0))).
  - exact (Hrun 200%nat H1).
Defined.

(** ** The classifier *)

Section ClassifierFacts.

Variable client : Type.
Variable create : client -> request -> result completion * client.

Lemma classify_one_label (c : client) (p : str) :
  fst (fst (classify_one client create c p))
  = label_of (fst (create c (request_of p)))
  /\ snd (classify_one client create c p) = snd (create c (request_of p))
  /\ filter is_create (snd (fst (classify_one client create c p)))
     = [ECreate (request_of p)].
Proof.
  unfold classify_one, label_of.
  destruct (create c (request_of p)) as [[completion|e] c']; simpl.
  - destruct (topic_of completion); simpl; auto.
  - auto.
Qed.

(** The loop appends one label per paragraph, the label of the answer to
    that paragraph's request. *)
Lemma classify_loop_labels (ps : list str) :
  forall c topics t,
  fst (fst (classify_loop client create c ps topics t))
  = topics ++ map label_of (answers create c ps)
  /\ filter is_create (snd (fst (classify_loop client create c ps topics t)))
     = filter is_create t ++ map (fun p => ECreate (request_of p)) ps.
Proof.
  induction ps as [|p ps IH]; intros c topics t; simpl.
  - now rewrite !app_nil_r.
  - destruct (classify_one_label c p) as (H1 & H2 & H3).
    destruct (classify_one client create c p) as [[topic t1] c'].
    simpl in H1, H2, H3. subst c'.
    destruct (create c (request_of p)) as [a c'']. simpl in *.
    destruct (IH c'' (topics ++ [topic]) (t ++ t1)) as [-> ->].
    rewrite <- !app_assoc, filter_app, H1, H3, <- app_assoc. auto.
Qed.

Lemma label_of_failed (a : result completion) :
  failed a -> label_of a = Error.
Proof.
  destruct a as [completion|e]; simpl; [|reflexivity].
  destruct (topic_of completion); [contradiction | reflexivity].
Qed.

Lemma labels_all_failed (l : list (result completion)) :
  Forall failed l -> map label_of l = repeat Error (length l).
Proof.
  induction 1 as [|a l Ha _ IH]; simpl; [reflexivity|].
  now rewrite label_of_failed, IH.
Qed.

Lemma length_answers (ps : list str) :
  forall c, length (answers create c ps) = length ps.
Proof.
  induction ps as [|p ps IH]; intros c; simpl; [reflexivity|].
  destruct (create c (request_of p)). simpl. now rewrite IH.
Qed.

Lemma classify_paragraphs_length (c : client) (ps : list str) :
  length (fst (fst (classify_paragraphs client create c ps))) = length ps.
Proof.
  unfold classify_paragraphs.
  rewrite (proj1 (classify_loop_labels ps c [] [])). simpl.
  now rewrite length_map, length_answers.
Qed.

End ClassifierFacts.

(** C7. Whatever the service does, the classifier returns one label per
    chunk, in order: the label at position [i] is read off the answer to the
    [i]-th request alone, it is [Error] when that call failed and the trimmed
    answer otherwise; when every call fails every label is [Error]; and one
    request is made per chunk, failures included. *)
Theorem classifier_aligned
    (client : Type) (create : client -> request -> result completion * client)
    (c : client) (ps : list str) :
  let topics := fst (fst (classify_paragraphs client create c ps)) in
  let t := snd (fst (classify_paragraphs client create c ps)) in
  length topics = length ps
  /\ topics = map label_of (answers create c ps)
  /\ (forall i a, nth_error (answers create c ps) i = Some a ->
      failed a -> nth_error topics i = Some Error)
  /\ (forall i text rest,
      nth_error (answers create c ps) i = Some (Ok (Some text :: rest)) ->
      nth_error topics i = Some (strip text))
  /\ (Forall failed (answers create c ps) ->
      topics = repeat Error (length ps))
  /\ filter is_create t = map (fun p => ECreate (request_of p)) ps.
Proof.
  intros topics t.
  assert (E : topics = map label_of (answers create c ps)).
  { unfold topics, classify_paragraphs.
    now rewrite (proj1 (classify_loop_labels client create ps c [] [])). }
  split; [apply classify_paragraphs_length|]. split; [exact E|].
  split; [|split; [|split]].
  - intros i a Hi Hf. rewrite E, nth_error_map, Hi. simpl.
    now rewrite label_of_failed.
  - intros i text rest Hi. rewrite E, nth_error_map, Hi. reflexivity.
  - intros Hall. rewrite E, <- (length_answers client create ps c).
    now apply labels_all_failed.
  - unfold t, classify_paragraphs.
    now rewrite (proj2 (classify_loop_labels client create ps c [] [])).
Qed.

Example classify_trims_the_answer :
  fst (fst (classify_paragraphs unit service_sports tt
              [example_p1; example_p2]))
  = [of_string "Sports"; of_string "Sports"].
Proof. reflexivity. Qed.

Lemma classifier_aligned_witness :
  Forall failed (answers service_down tt [example_p1; example_p2])
  /\ fst (fst (classify_paragraphs unit service_down tt
                 [example_p1; example_p2]))
     = repeat Error 2.
Proof.
  assert (H : Forall failed (answers service_down tt [example_p1; example_p2])).
  { repeat constructor. }
  split; [exact H|].
  exact (proj1 (proj2 (proj2 (proj2 (proj2
           (classifier_aligned unit service_down tt
              [example_p1; example_p2]))))) H).
Defined.

(** ** The pipeline *)

Section PipelineFacts.

Variable client : Type.
Variable create : client -> request -> result completion * client.
Variables content_exists_first content_exists_second : bool.
Variable read_pdf : string -> result str.
Variable to_csv : string -> table -> result unit.

Variable fuel : nat.
Variable c : client.

(** The table is always built: the two columns have the same length. *)
Lemma DataFrame_ok (ps : list str) :
  DataFrame ps (fst (fst (classify_paragraphs client create c ps)))
  = Ok (combine ps (fst (fst (classify_paragraphs client create c ps)))).
Proof.
  unfold DataFrame. rewrite classify_paragraphs_length, Nat.eqb_refl.
  reflexivity.
Qed.

Lemma main_read_failure (e : exn) :
  read_pdf (news_path content_exists_first) = Raise e ->
  main client create content_exists_first content_exists_second
    read_pdf to_csv fuel c
  = Some ([EReadPdf (news_path content_exists_first);
           EPrint [Lit "Failed to read the PDF: "; Exn e]], Returned).
Proof.
  intros H. unfold main. rewrite H. reflexivity.
Qed.

Lemma main_no_paragraphs (text : str) :
  read_pdf (news_path content_exists_first) = Ok text ->
  split_into_paragraphs fuel text = Some [] ->
  main client create content_exists_first content_exists_second
    read_pdf to_csv fuel c
  = Some (EReadPdf (news_path content_exists_first)
            :: map EPrint (split_into_paragraphs_prints text)
            ++ [EPrint [Lit "No paragraphs found in the document."]],
          Returned).
Proof.
  intros H1 H2. unfold main. rewrite H1, H2. reflexivity.
Qed.

(** The run of [main] once segmentation has produced chunks. *)
Lemma main_classified (text : str) (out : list str) :
  read_pdf (news_path content_exists_first) = Ok text ->
  split_into_paragraphs fuel text = Some out ->
  out <> [] ->
  let topics := fst (fst (classify_paragraphs client create c out)) in
  let t1 := snd (fst (classify_paragraphs client create c out)) in
  let t0 := EReadPdf (news_path content_exists_first)
              :: map EPrint (split_into_paragraphs_prints text) in
  main client create content_exists_first content_exists_second
    read_pdf to_csv fuel c
  = match to_csv (csv_path content_exists_second) (combine out topics) with
    | Ok _ =>
        Some (t0 ++ t1
                ++ [EToCsv (csv_path content_exists_second)
                      (combine out topics);
                    EPrint [Lit "Classified results saved to '";
                            Lit (csv_path content_exists_second);
                            Lit "'."]],
              Returned)
    | Raise e =>
        Some (t0 ++ t1
                ++ [EToCsv (csv_path content_exists_second)
                      (combine out topics);
                    EPrint [Lit "Failed to save the results: "; Exn e]],
              Returned)
    end.
Proof.
  intros H1 H2 Hne topics t1 t0. unfold main. rewrite H1, H2.
  destruct out as [|p ps]; [now elim Hne|].
  pose proof (DataFrame_ok (p :: ps)) as D.
  fold topics in D. subst topics t1.
  destruct (classify_paragraphs client create c (p :: ps)) as [[tp tr] c'].
  simpl fst in *. simpl snd in *. rewrite D. reflexivity.
Qed.

(** [main] returns normally in every run. *)
Lemma main_returns (t : trace) (o : outcome) :
  main client create content_exists_first content_exists_second
    read_pdf to_csv fuel c = Some (t, o) -> o = Returned.
Proof.
  destruct (read_pdf (news_path content_exists_first)) as [text|e] eqn:R.
  - destruct (split_into_paragraphs fuel text) as [out|] eqn:S.
    + destruct out as [|p ps] eqn:O.
      * rewrite (main_no_paragraphs text R S). congruence.
      * rewrite (main_classified text (p :: ps) R S) by discriminate.
        destruct (to_csv _ _); congruence.
    + unfold main. rewrite R, S. discriminate.
  - rewrite (main_read_failure e R). congruence.
Qed.

End PipelineFacts.

(** C8. Empty or whitespace-only text gives zero paragraphs; and in every
    run in which segmentation gives zero paragraphs, [main] prints its
    notice and returns: no classification request, no output written, no
    exception, exit status 0. *)
Theorem empty_input_clean_exit
    (client : Type) (create : client -> request -> result completion * client)
    (e1 e2 : bool) (read_pdf : string -> result str)
    (to_csv : string -> table -> result unit) (c : client) :
  (forall text fuel,
     Forall (fun ch => isspace ch = true) text ->
     split_into_paragraphs fuel text = Some [])
  /\ (forall text fuel,
        read_pdf (news_path e1) = Ok text ->
        split_into_paragraphs fuel text = Some [] ->
        exists t,
          main client create e1 e2 read_pdf to_csv fuel c
          = Some (t ++ [EPrint [Lit "No paragraphs found in the document."]],
                  Returned)
          /\ filter is_create
               (t ++ [EPrint [Lit "No paragraphs found in the document."]])
             = []
          /\ filter is_to_csv
               (t ++ [EPrint [Lit "No paragraphs found in the document."]])
             = []
          /\ exit_status Returned = 0).
Proof.
  split.
  - intros text fuel H. unfold split_into_paragraphs.
    now rewrite paragraphs_blank.
  - intros text fuel R S.
    exists (EReadPdf (news_path e1)
              :: map EPrint (split_into_paragraphs_prints text)).
    split; [|repeat split].
    apply (main_no_paragraphs client create e1 e2 read_pdf to_csv fuel c text R S).
Qed.

Lemma empty_input_clean_exit_witness :
  Forall (fun ch => isspace ch = true) blank_text
  /\ reader_of blank_text "news.pdf"%string = Ok blank_text
  /\ split_into_paragraphs 0 blank_text = Some []
  /\ exists t,
       main unit service_down false false (reader_of blank_text) writer_ok
         0 tt
       = Some (t ++ [EPrint [Lit "No paragraphs found in the document."]],
               Returned)
       /\ filter is_create
            (t ++ [EPrint [Lit "No paragraphs found in the document."]])
          = []
       /\ filter is_to_csv
            (t ++ [EPrint [Lit "No paragraphs found in the document."]])
          = []
       /\ exit_status Returned = 0.
Proof.
  assert (B : Forall (fun ch => isspace ch = true) blank_text)
    by (repeat constructor).
  assert (R : reader_of blank_text "news.pdf"%string = Ok blank_text)
    by reflexivity.
  destruct (empty_input_clean_exit unit service_down false false
              (reader_of blank_text) writer_ok tt) as [Hblank Hrun].
  split; [exact B|]. split; [exact R|].
  split; [exact (Hblank blank_text 0%nat B)|].
  exact (Hrun blank_text 0%nat R (Hblank blank_text 0%nat B)).
Defined.

(** C9, as the code behaves.  When reading the PDF fails, [main] prints a
    diagnostic and returns: nothing is classified and nothing is written.
    When writing the table fails, [main] prints a diagnostic and returns.
    In every run the exit status is 0. *)
Theorem fatal_error_reported
    (client : Type) (create : client -> request -> result completion * client)
    (e1 e2 : bool) (read_pdf : string -> result str)
    (to_csv : string -> table -> result unit) (fuel : nat) (c : client) :
  (forall e,
     read_pdf (news_path e1) = Raise e ->
     exists t,
       main client create e1 e2 read_pdf to_csv fuel c = Some (t, Returned)
       /\ t = [EReadPdf (news_path e1);
               EPrint [Lit "Failed to read the PDF: "; Exn e]]
       /\ filter is_create t = []
       /\ filter is_to_csv t = [])
  /\ (forall text out e,
        read_pdf (news_path e1) = Ok text ->
        split_into_paragraphs fuel text = Some out ->
        out <> [] ->
        to_csv (csv_path e2)
          (combine out (fst (fst (classify_paragraphs client create c out))))
        = Raise e ->
        exists t,
          main client create e1 e2 read_pdf to_csv fuel c
          = Some (t ++ [EPrint [Lit "Failed to save the results: "; Exn e]],
                  Returned))
  /\ (forall t o,
        main client create e1 e2 read_pdf to_csv fuel c = Some (t, o) ->
        o = Returned /\ exit_status o = 0).
Proof.
  split; [|split].
  - intros e R. eexists. split; [|repeat split].
    apply (main_read_failure client create e1 e2 read_pdf to_csv fuel c e R).
  - intros text out e R S Hne W.
    pose proof (main_classified client create e1 e2 read_pdf to_csv
                  fuel c text out R S Hne) as M.
    cbv zeta in M. rewrite W in M.
    exists ((EReadPdf (news_path e1)
               :: map EPrint (split_into_paragraphs_prints text))
            ++ snd (fst (classify_paragraphs client create c out))
            ++ [EToCsv (csv_path e2)
                  (combine out
                     (fst (fst (classify_paragraphs client create c out))))]).
    rewrite M, <- !app_assoc. reflexivity.
  - intros t o M.
    apply main_returns in M. subst o. split; reflexivity.
Qed.

Lemma fatal_error_reported_witness :
  (reader_missing "news.pdf"%string = Raise "No such file or directory"%string
   /\ exists t,
        main unit service_down false false reader_missing writer_ok 0 tt
        = Some (t, Returned)
        /\ t = [EReadPdf "news.pdf";
                EPrint [Lit "Failed to read the PDF: ";
                        Exn "No such file or directory"%string]]
        /\ filter is_create t = []
        /\ filter is_to_csv t = [])
  /\ (reader_of example_text "news.pdf"%string = Ok example_text
      /\ split_into_paragraphs 4 example_text
         = Some ([example_p1; example_p2] ++ example_chunks)
      /\ [example_p1; example_p2] ++ example_chunks <> []
      /\ exists t,
           main unit service_sports false false (reader_of example_text)
             writer_denied 4 tt
           = Some (t ++ [EPrint [Lit "Failed to save the results: ";
                                 Exn "Permission denied"%string]],
                   Returned)).
Proof.
  assert (R1 : reader_missing "news.pdf"%string
               = Raise "No such file or directory"%string) by reflexivity.
  assert (R2 : reader_of example_text "news.pdf"%string = Ok example_text)
    by reflexivity.
  assert (S2 : split_into_paragraphs 4 example_text
               = Some ([example_p1; example_p2] ++ example_chunks))
    by (vm_compute; reflexivity).
  assert (N2 : [example_p1; example_p2] ++ example_chunks <> [])
    by discriminate.
  split.
  - split; [exact R1|].
    exact (proj1 (fatal_error_reported unit service_down false false
                    reader_missing writer_ok 0 tt) _ R1).
  - split; [exact R2|]. split; [exact S2|]. split; [exact N2|].
    exact (proj1 (proj2 (fatal_error_reported unit service_sports false false
                           (reader_of example_text) writer_denied 4 tt))
             example_text _ "Permission denied"%string R2 S2 N2 eq_refl).
Defined.

(** C9, as it is worded: after a failed extraction, and after a failed
    write, the exit status is not different from zero. *)
Lemma fatal_error_exit_status_zero :
  reader_missing "news.pdf"%string = Raise "No such file or directory"%string
  /\ ~ (exists t o,
          main unit service_down false false reader_missing writer_ok 0 tt
          = Some (t, o)
          /\ exit_status o <> 0)
  /\ (forall df, writer_denied "classified_news.csv"%string df
                 = Raise "Permission denied"%string)
  /\ ~ (exists t o,
          main unit service_sports false false (reader_of example_text)
            writer_denied 4 tt
          = Some (t, o)
          /\ exit_status o <> 0).
Proof.
  split; [reflexivity|]. split; [|split; [reflexivity|]].
  - intros (t & o & H & Hne). vm_compute in H. injection H as _ <-.
    now apply Hne.
  - intros (t & o & H & Hne). apply main_returns in H. subst o.
    now apply Hne.
Qed.

(** * Further properties *)

(** ** More on strings *)

Section MoreStringFacts.

Lemma newline_is_space (c : char) : is_newline c = true -> isspace c = true.
Proof. unfold is_newline, LF. intros H. apply N.eqb_eq in H. now subst. Qed.

Lemma join_nil_concat (items : list str) : join [] items = concat items.
Proof.
  induction items as [|w items IH]; [reflexivity|].
  destruct items as [|w' items].
  - simpl. now rewrite app_nil_r.
  - change (join [] (w :: w' :: items)) with (w ++ [] ++ join [] (w' :: items)).
    rewrite IH. reflexivity.
Qed.

(** [lstrip] removes a run of whitespace from the front, and nothing else. *)
Lemma lstrip_decomp (s : str) :
  exists pre, s = pre ++ lstrip s /\ blank pre.
Proof.
  induction s as [|c s (pre & E & B)]; simpl.
  - exists []. split; [reflexivity | constructor].
  - destruct (isspace c) eqn:Hc.
    + exists (c :: pre). split; [simpl; now rewrite <- E | now constructor].
    + exists []. split; [reflexivity | constructor].
Qed.

Lemma lstrip_fixed (s : str) :
  (forall c r, s = c :: r -> nonspace c) -> lstrip s = s.
Proof.
  destruct s as [|c r]; [reflexivity|]. intros H. simpl.
  now rewrite (H c r eq_refl).
Qed.

Lemma lstrip_fixed_head (c : char) (r : str) :
  lstrip (c :: r) = c :: r -> nonspace c.
Proof.
  simpl. unfold nonspace. destruct (isspace c); [|reflexivity]. intros E.
  pose proof (lstrip_length r) as L. rewrite E in L. simpl in L. lia.
Qed.

Lemma lstrip_lstrip (s : str) : lstrip (lstrip s) = lstrip s.
Proof.
  apply lstrip_fixed. intros c r E. now apply lstrip_head in E.
Qed.

(** [strip] removes whitespace from both ends, and nothing else. *)
Lemma strip_decomp (s : str) :
  exists pre post, s = pre ++ strip s ++ post /\ blank pre /\ blank post.
Proof.
  destruct (lstrip_decomp s) as (pre & E1 & B1).
  destruct (lstrip_decomp (rev (lstrip s))) as (q & E2 & B2).
  exists pre, (rev q). unfold strip, rstrip. split; [|split].
  - rewrite E1 at 1. f_equal.
    rewrite <- rev_app_distr, <- E2. now rewrite rev_involutive.
  - exact B1.
  - now apply Forall_rev.
Qed.

(** A text that neither begins nor ends with whitespace is left alone. *)
Lemma strip_fixed (s : str) :
  lstrip s = s -> lstrip (rev s) = rev s -> strip s = s.
Proof.
  intros H1 H2. unfold strip, rstrip. rewrite H1, H2. apply rev_involutive.
Qed.

Lemma strip_ends (s : str) :
  lstrip (strip s) = strip s /\ lstrip (rev (strip s)) = rev (strip s).
Proof.
  unfold strip, rstrip. rewrite rev_involutive, lstrip_lstrip. split; [|reflexivity].
  destruct (lstrip_decomp (rev (lstrip s))) as (q & E & _).
  set (u := lstrip (rev (lstrip s))) in *.
  destruct (rev u) as [|h r] eqn:R; [reflexivity|].
  apply lstrip_fixed. intros c r' E'. injection E' as <- <-.
  apply (f_equal (@rev _)) in E. rewrite rev_involutive, rev_app_distr, R in E.
  apply lstrip_fixed_head with (r := r ++ rev q).
  change (h :: r ++ rev q) with ((h :: r) ++ rev q).
  rewrite <- E. apply lstrip_lstrip.
Qed.

Lemma strip_strip (s : str) : strip (strip s) = strip s.
Proof. apply strip_fixed; apply strip_ends. Qed.

Lemma split_scan_blank (post : str) :
  blank post -> forall cur, split_scan cur post = flush cur.
Proof.
  induction 1 as [|c post Hc _ IH]; intros cur; simpl; [reflexivity|].
  rewrite Hc, IH. simpl. apply app_nil_r.
Qed.

Lemma split_blank_front (pre s : str) :
  blank pre -> split (pre ++ s) = split s.
Proof.
  unfold split. induction 1 as [|c pre Hc _ IH]; simpl; [reflexivity|].
  now rewrite Hc.
Qed.

Lemma split_scan_blank_back (post : str) :
  blank post -> forall s cur, split_scan cur (s ++ post) = split_scan cur s.
Proof.
  intros B. induction s as [|c s IH]; intros cur; simpl.
  - now apply split_scan_blank.
  - destruct (isspace c); now rewrite IH.
Qed.

(** Whitespace between two texts separates their words. *)
Lemma split_scan_sep (sep b : str) :
  sep <> [] -> blank sep ->
  forall a cur,
  split_scan cur (a ++ sep ++ b) = split_scan cur a ++ split b.
Proof.
  intros Hne B. induction a as [|c a IH]; intros cur.
  - destruct B as [|sp sep Hsp B]; [now elim Hne|]. simpl. rewrite Hsp.
    f_equal. now apply split_blank_front.
  - simpl. destruct (isspace c).
    + now rewrite IH, app_assoc.
    + apply IH.
Qed.

Lemma split_strip (s : str) : split (strip s) = split s.
Proof.
  destruct (strip_decomp s) as (pre & post & E & B1 & B2).
  rewrite E at 2. rewrite split_blank_front by assumption.
  unfold split. now rewrite split_scan_blank_back.
Qed.

Lemma split_blank (s : str) : blank s -> split s = [].
Proof. intros B. unfold split. now rewrite split_scan_blank. Qed.

Lemma split_nil_blank (s : str) : split s = [] -> blank s.
Proof. intros H. now apply split_scan_nil in H. Qed.

Lemma strip_nil_blank (s : str) : strip s = [] -> blank s.
Proof.
  intros H. destruct (strip_decomp s) as (pre & post & E & B1 & B2).
  rewrite E, H. apply Forall_app. split; assumption.
Qed.

Lemma join_cons2 (sep w w' : str) (ws : list str) :
  join sep (w :: w' :: ws) = w ++ sep ++ join sep (w' :: ws).
Proof. reflexivity. Qed.

Lemma join_snoc (sep w : str) (ws : list str) :
  ws <> [] -> join sep (ws ++ [w]) = join sep ws ++ sep ++ w.
Proof.
  induction ws as [|v ws IH]; intros Hne; [now elim Hne|].
  destruct ws as [|v' ws]; [reflexivity|].
  change ((v :: v' :: ws) ++ [w]) with (v :: v' :: (ws ++ [w])).
  rewrite !join_cons2.
  change (v' :: ws ++ [w]) with ((v' :: ws) ++ [w]).
  rewrite IH by discriminate. now rewrite <- !app_assoc.
Qed.

(** Words joined by single spaces begin and end with a word character. *)
Lemma join_words_trimmed (ws : list str) :
  ws <> [] -> Forall is_word ws -> trimmed (join [SPACE] ws).
Proof.
  intros Hne Hw. split.
  - destruct ws as [|w ws]; [now elim Hne|].
    inversion Hw as [|? ? [Hw1 _] _]; subst.
    destruct ws; simpl; destruct w; try discriminate; now elim Hw1.
  - apply strip_fixed.
    + destruct ws as [|w ws]; [now elim Hne|].
      inversion Hw as [|? ? [Hw1 Hw2] _]; subst.
      destruct w as [|c w]; [now elim Hw1|]. inversion Hw2; subst.
      apply lstrip_fixed. intros c' r E.
      destruct ws; simpl in E; injection E as <- _; assumption.
    + destruct (exists_last Hne) as (front & w & ->).
      apply Forall_app in Hw. destruct Hw as [_ Hw].
      inversion Hw as [|? ? [Hw1 Hw2] _]; subst.
      destruct (exists_last Hw1) as (w' & c & ->).
      apply Forall_app in Hw2. destruct Hw2 as [_ Hc]. inversion Hc; subst.
      apply lstrip_fixed. intros c' r E.
      destruct front as [|f front].
      * simpl in E. rewrite rev_app_distr in E. simpl in E.
        injection E as <- _. assumption.
      * rewrite join_snoc in E by discriminate.
        rewrite !rev_app_distr in E. simpl in E.
        injection E as <- _. assumption.
Qed.

End MoreStringFacts.

(** ** More on Step 1 *)

Section MoreSeparatorFacts.

Lemma match_ws_nl_blank (s : str) :
  forall rest, match_ws_nl s = Some rest ->
  exists pre, pre <> [] /\ blank pre /\ s = pre ++ rest.
Proof.
  induction s as [|c r IH]; intros rest H; simpl in H; [discriminate|].
  destruct (isspace c) eqn:Hc; [|discriminate].
  destruct (match_ws_nl r) as [rest'|] eqn:E.
  - injection H as <-. destruct (IH _ eq_refl) as (pre & _ & B & ->).
    exists (c :: pre). split; [discriminate|]. split; [now constructor | reflexivity].
  - destruct (is_newline c); [|discriminate]. injection H as <-.
    exists [c]. split; [discriminate|]. split; [now repeat constructor | reflexivity].
Qed.

(** A separator is a run of whitespace of at least two characters. *)
Lemma match_sep_blank (s rest : str) :
  match_sep s = Some rest ->
  exists pre, pre <> [] /\ blank pre /\ s = pre ++ rest.
Proof.
  destruct s as [|c r]; simpl; [discriminate|].
  destruct (is_newline c) eqn:Hc; [|discriminate]. intros H.
  apply match_ws_nl_blank in H. destruct H as (pre & _ & B & ->).
  exists (c :: pre). split; [discriminate|].
  split; [constructor; [now apply newline_is_space | assumption] | reflexivity].
Qed.

(** The words of the pieces are the words of the text. *)
Lemma re_split_scan_words (fuel : nat) :
  forall cur s,
  concat (map split (re_split_scan fuel cur s)) = split (rev cur ++ s).
Proof.
  induction fuel as [|fuel IH]; intros cur s; simpl.
  - apply app_nil_r.
  - destruct s as [|c r].
    + simpl. now rewrite !app_nil_r.
    + destruct (match_sep (c :: r)) as [rest|] eqn:E.
      * simpl. rewrite IH. simpl.
        apply match_sep_blank in E. destruct E as (pre & Hne & B & ->).
        unfold split. now rewrite (split_scan_sep pre rest Hne B).
      * rewrite IH. simpl. now rewrite <- app_assoc.
Qed.

Lemma filter_strip_words (pieces : list str) :
  concat (map split
            (map strip (filter (fun p => truthy (strip p)) pieces)))
  = concat (map split pieces).
Proof.
  induction pieces as [|p pieces IH]; [reflexivity|].
  cbn [filter map concat]. destruct (truthy (strip p)) eqn:T.
  - cbn [map concat]. now rewrite IH, split_strip.
  - rewrite IH. assert (E : strip p = []) by (destruct (strip p); [reflexivity | discriminate]).
    apply strip_nil_blank in E. now rewrite (split_blank p E).
Qed.

(** Step 1 keeps every word of the text, in order. *)
Lemma paragraphs_words (text : str) :
  concat (map split (paragraphs text)) = split text.
Proof.
  unfold paragraphs. rewrite filter_strip_words.
  unfold re_split. apply (re_split_scan_words _ [] text).
Qed.

(** A separator found in a text is found in every extension of it. *)
Lemma match_ws_nl_extend (a b : str) :
  match_ws_nl a <> None -> match_ws_nl (a ++ b) <> None.
Proof.
  induction a as [|c a IH]; simpl; [congruence|].
  destruct (isspace c); [|congruence].
  destruct (match_ws_nl a) eqn:E.
  - intros _. destruct (match_ws_nl (a ++ b)) eqn:E'; [discriminate|].
    exfalso. apply IH; [discriminate | reflexivity].
  - destruct (is_newline c); [|congruence]. intros _.
    destruct (match_ws_nl (a ++ b)); discriminate.
Qed.

Lemma match_sep_extend (a b : str) :
  match_sep a <> None -> match_sep (a ++ b) <> None.
Proof.
  destruct a as [|c a]; simpl; [congruence|].
  destruct (is_newline c); [apply match_ws_nl_extend | congruence].
Qed.

Lemma has_separator_extend (pre s post : str) :
  has_separator s -> has_separator (pre ++ s ++ post).
Proof.
  intros (a & b & -> & H). exists (pre ++ a), (b ++ post). split.
  - now rewrite <- !app_assoc.
  - now apply match_sep_extend.
Qed.

(** No piece returned by the scan holds a separator. *)
Lemma re_split_scan_clean (fuel : nat) :
  forall cur s, (length s < fuel)%nat ->
  (forall v u, rev cur = v ++ u -> u <> [] -> match_sep (u ++ s) = None) ->
  forall p, In p (re_split_scan fuel cur s) -> ~ has_separator p.
Proof.
  induction fuel as [|fuel IH]; intros cur s Hf Inv p Hp; [lia|].
  simpl in Hp. destruct s as [|c r].
  - destruct Hp as [<-|[]]. intros (a & b & E & H).
    destruct b as [|x b]; [now apply H|].
    apply H. rewrite <- (app_nil_r (x :: b)).
    apply (Inv a); [assumption | discriminate].
  - destruct (match_sep (c :: r)) as [rest|] eqn:E.
    + destruct Hp as [<-|Hp].
      * intros (a & b & E' & H).
        destruct b as [|x b]; [now apply H|].
        assert (N : match_sep ((x :: b) ++ c :: r) = None)
          by (apply (Inv a); [assumption | discriminate]).
        apply (match_sep_extend _ (c :: r)) in H. contradiction.
      * apply match_sep_suffix in E. destruct E as (pre & Hne & E).
        apply (IH [] rest); [| |assumption].
        -- apply (f_equal (@length _)) in E. rewrite length_app in E.
           destruct pre; [now elim Hne|]. simpl in *. lia.
        -- intros v u Hvu Hu. simpl in Hvu.
           symmetry in Hvu. apply app_eq_nil in Hvu. destruct Hvu. contradiction.
    + apply (IH (c :: cur) r); [simpl in Hf; lia | | assumption].
      intros v u Hvu Hu. simpl in Hvu.
      destruct (exists_last Hu) as (u' & x & ->).
      rewrite app_assoc in Hvu. apply app_inj_tail in Hvu.
      destruct Hvu as [Hvu <-]. rewrite <- app_assoc. simpl.
      destruct u' as [|y u']; [exact E|].
      apply (Inv v); [assumption | discriminate].
Qed.

Lemma re_split_clean (text p : str) :
  In p (re_split text) -> ~ has_separator p.
Proof.
  apply (re_split_scan_clean (S (length text)) [] text); [lia|].
  intros v u Hvu Hu. simpl in Hvu.
  symmetry in Hvu. apply app_eq_nil in Hvu. destruct Hvu. contradiction.
Qed.

Lemma paragraphs_clean (text p : str) :
  In p (paragraphs text) -> ~ has_separator p.
Proof.
  intros H. apply paragraphs_in in H. destruct H as (_ & raw & Hraw & ->).
  intros S. apply (re_split_clean text raw Hraw).
  destruct (strip_decomp raw) as (pre & post & E & _). rewrite E.
  now apply has_separator_extend.
Qed.

Lemma paragraphs_trimmed (text p : str) :
  In p (paragraphs text) -> trimmed p.
Proof.
  intros H. apply paragraphs_in in H. destruct H as (Hne & raw & _ & ->).
  split; [assumption | apply strip_strip].
Qed.

Lemma paragraphs_part (text p : str) :
  In p (paragraphs text) -> exists a b, text = a ++ p ++ b.
Proof.
  intros H. apply paragraphs_in in H. destruct H as (_ & raw & Hraw & ->).
  apply re_split_part in Hraw. destruct Hraw as (a & b & ->).
  destruct (strip_decomp raw) as (pre & post & E & _).
  exists (a ++ pre), (post ++ b). rewrite E at 1.
  now rewrite <- !app_assoc.
Qed.

End MoreSeparatorFacts.

(** ** More on the segmenter *)

Section MoreSegmenterFacts.

Lemma in_concat_forall2 {A B : Type} (R : A -> list B -> Prop)
    (l : list A) (cs : list (list B)) (y : B) :
  Forall2 R l cs -> In y (concat cs) ->
  exists x c, In x l /\ R x c /\ In y c.
Proof.
  induction 1 as [|x c l cs HR _ IH]; simpl; [tauto|].
  rewrite in_app_iff. intros [H|H].
  - exists x, c. auto.
  - destruct (IH H) as (x' & c' & Hx & HR' & Hy). exists x', c'. auto.
Qed.

Lemma int_le (x : Q) : (0 <= x)%Q -> (inject_Z (int x) <= x)%Q.
Proof. intros H. rewrite (int_floor x H). apply Qfloor_le. Qed.

Lemma length_threshold_ge (avg : Q) :
  (0 <= avg)%Q -> (avg <= length_threshold avg)%Q.
Proof.
  intros H. unfold length_threshold.
  rewrite <- (Qplus_0_r avg) at 1. apply Qplus_le_compat; [apply Qle_refl|].
  apply Qle_shift_div_l; [reflexivity|]. rewrite Qmult_0_l.
  apply Qmult_le_0_compat; [assumption | discriminate].
Qed.

(** Where each chunk of the output comes from: it is a paragraph kept
    whole, or one window of a paragraph above the threshold. *)
Lemma output_chunks (text : str) (fuel : nat) :
  (length text < fuel)%nat ->
  exists out,
    split_into_paragraphs fuel text = Some out
    /\ forall c, In c out ->
       exists p,
         In p (paragraphs text)
         /\ ((c = p
              /\ (inject_Z (word_count p)
                  <= length_threshold (avg_words (paragraphs text)))%Q)
             \/ ((length_threshold (avg_words (paragraphs text))
                  < inject_Z (word_count p))%Q
                 /\ exists wss w,
                      consecutive_windows
                        (Z.to_nat (int (avg_words (paragraphs text))))
                        (split p) wss
                      /\ In w wss /\ c = join [SPACE] w)).
Proof.
  intros Hf.
  destruct (split_into_paragraphs_total text fuel Hf) as (cs & Hrun & Hcs).
  exists (concat cs). split; [exact Hrun|]. intros c Hc.
  destruct (in_concat_forall2 _ _ _ _ Hcs Hc) as (p & k & Hp & (Hk & _) & Hck).
  exists p. split; [exact Hp|].
  assert (W : 1 <= int (avg_words (paragraphs text))).
  { apply text_window. intros E. rewrite E in Hp. contradiction. }
  destruct (for_body_total fuel (avg_words (paragraphs text))
              (length_threshold (avg_words (paragraphs text))) W p)
    as (k' & Hk' & _ & _ & Hshort & Hlong).
  { now apply paragraphs_word_count with text. }
  { apply paragraphs_length in Hp. lia. }
  unfold chunks_of in Hk. rewrite Hk in Hk'. injection Hk' as <-.
  destruct (gt (word_count p)
              (length_threshold (avg_words (paragraphs text)))) eqn:G.
  - right. split; [now apply gt_iff|].
    destruct (Hlong eq_refl) as (wss & -> & Hw).
    apply in_map_iff in Hck. destruct Hck as (w & <- & Hin). eauto.
  - left. rewrite (Hshort eq_refl) in Hck. destruct Hck as [<-|[]].
    split; [reflexivity | now apply gt_false_iff].
Qed.

Lemma window_words {A : Type} (P : A -> Prop) (size : nat) (l : list A)
    (wss : list (list A)) (w : list A) :
  consecutive_windows size l wss -> In w wss -> Forall P l ->
  Forall P w /\ (1 <= length w <= size)%nat.
Proof.
  intros (Hc & Hb & _) Hin Hl. split.
  - rewrite <- Hc in Hl. rewrite Forall_forall in *. intros x Hx.
    apply Hl. apply in_concat. eauto.
  - rewrite Forall_forall in Hb. now apply Hb.
Qed.

(** The number of windows is the ceiling of the quotient. *)
Lemma window_count {A : Type} (size : nat) (wss : list (list A)) :
  (1 <= size)%nat ->
  forall l, consecutive_windows size l wss ->
  Z.of_nat (length wss) = ceil_div (Z.of_nat (length l)) (Z.of_nat size).
Proof.
  intros Hs. unfold ceil_div.
  induction wss as [|w wss IH]; intros l (Hc & Hb & Hr).
  - simpl in Hc. subst l. simpl. symmetry. apply Z.div_small. lia.
  - destruct wss as [|w' wss].
    + simpl in Hc. rewrite app_nil_r in Hc. subst l.
      inversion Hb as [|? ? Hw _]; subst. simpl length.
      apply Z.div_unique with (r := Z.of_nat (length w) - 1); lia.
    + change (removelast (w :: w' :: wss))
        with (w :: removelast (w' :: wss)) in Hr.
      inversion Hr as [|? ? Hw Hr']; subst.
      inversion Hb as [|? ? _ Hb']; subst.
      specialize (IH (concat (w' :: wss))
                    (conj eq_refl (conj Hb' Hr'))).
      change (concat (w :: w' :: wss)) with (w ++ concat (w' :: wss)).
      rewrite length_app. change (length (w :: w' :: wss))
        with (S (length (w' :: wss))).
      rewrite Nat2Z.inj_succ, IH, Nat2Z.inj_add.
      replace (Z.of_nat (length w) + Z.of_nat (length (concat (w' :: wss)))
               + Z.of_nat (length w) - 1)
        with (Z.of_nat (length (concat (w' :: wss)))
              + Z.of_nat (length w) - 1 + 1 * Z.of_nat (length w)) by lia.
      rewrite Z.div_add by lia. lia.
Qed.

Lemma total_words_uniform (k : Z) (ps : list str) :
  (forall p, In p ps -> word_count p = k) ->
  total_words ps = k * num_paragraphs ps.
Proof.
  unfold num_paragraphs. induction ps as [|p ps IH]; intros H.
  - simpl. unfold total_words, sum. simpl. lia.
  - rewrite total_words_cons, (H p) by (simpl; auto).
    rewrite IH by (intros q Hq; apply H; simpl; auto).
    simpl length. lia.
Qed.

Lemma avg_words_nonneg (ps : list str) : (0 <= avg_words ps)%Q.
Proof.
  unfold avg_words. destruct (0 <? num_paragraphs ps) eqn:E; [|discriminate].
  apply Z.ltb_lt in E. apply Qle_shift_div_l.
  - change 0%Q with (inject_Z 0). now rewrite <- Zlt_Qlt.
  - rewrite Qmult_0_l. change 0%Q with (inject_Z 0). rewrite <- Zle_Qle.
    unfold total_words. clear E.
    assert (G : forall l a, 0 <= a -> 0 <= fold_left Z.add (map word_count l) a).
    { induction l as [|p l IH]; intros a Ha; simpl; [assumption|].
      apply IH. unfold word_count. lia. }
    apply G. lia.
Qed.

(** Paragraphs that are all below the threshold are copied one by one, and
    no inner loop runs. *)
Lemma for_paragraph_all_short (fuel : nat) (avg thr : Q) (ps : list str) :
  (forall p, In p ps -> gt (word_count p) thr = false) ->
  forall adjusted,
  for_paragraph fuel avg thr ps adjusted = Some (adjusted ++ ps).
Proof.
  induction ps as [|p ps IH]; intros H adjusted; simpl.
  - now rewrite app_nil_r.
  - unfold for_body. rewrite (H p) by (simpl; auto).
    rewrite IH by (intros q Hq; apply H; simpl; auto).
    now rewrite <- app_assoc.
Qed.

(** A paragraph with at most the mean number of words is below the
    threshold. *)
Lemma at_most_mean_short (ps : list str) (p : str) :
  (inject_Z (word_count p) <= avg_words ps)%Q ->
  gt (word_count p) (length_threshold (avg_words ps)) = false.
Proof.
  intros H. apply gt_false_iff. eapply Qle_trans; [exact H|].
  apply length_threshold_ge, avg_words_nonneg.
Qed.

Lemma join_words_chars (ws : list str) (x : char) :
  Forall is_word ws -> In x (join [SPACE] ws) -> x = SPACE \/ nonspace x.
Proof.
  induction 1 as [|w ws [_ Hw] Hws IH]; [intros []|].
  destruct ws as [|w' ws].
  - simpl. intros Hx. right. rewrite Forall_forall in Hw. auto.
  - rewrite join_cons2, !in_app_iff. intros [Hx|[Hx|Hx]].
    + right. rewrite Forall_forall in Hw. auto.
    + left. destruct Hx as [<-|[]]. reflexivity.
    + auto.
Qed.

Lemma join_words_clean (ws : list str) :
  Forall is_word ws -> ~ has_separator (join [SPACE] ws).
Proof.
  intros Hws (a & b & E & H). destruct b as [|c b]; [now apply H|].
  simpl in H. destruct (is_newline c) eqn:Hc; [|now apply H].
  assert (Hin : In c (join [SPACE] ws))
    by (rewrite E; apply in_or_app; right; now left).
  destruct (join_words_chars ws c Hws Hin) as [->|Hn]; [discriminate|].
  apply newline_is_space in Hc. unfold nonspace in Hn. congruence.
Qed.

End MoreSegmenterFacts.

Lemma contributions_words (R : str -> list str -> Prop)
    (ps : list str) (cs : list (list str)) :
  Forall2 (fun p c => R p c /\ concat (map split c) = split p) ps cs ->
  concat (map split (concat cs)) = concat (map split ps).
Proof.
  induction 1 as [|p c ps cs [_ Hc] _ IH]; [reflexivity|].
  simpl. now rewrite map_app, concat_app, Hc, IH.
Qed.

Lemma split_into_paragraphs_words (text : str) (fuel : nat) :
  (length text < fuel)%nat ->
  exists out,
    split_into_paragraphs fuel text = Some out
    /\ concat (map split out) = split text.
Proof.
  intros Hf.
  destruct (split_into_paragraphs_total text fuel Hf) as (cs & Hrun & Hcs).
  exists (concat cs). split; [exact Hrun|].
  rewrite <- paragraphs_words.
  apply contributions_words
    with (R := fun p c => chunks_of fuel text p = Some c /\ c <> []).
  revert Hcs. apply Forall2_impl. tauto.
Qed.

(** X1. The segmenter keeps the words of the document: the words of the
    paragraphs of Step 1, and the words of the output chunks, in order, are
    exactly the words of the input text. *)
Theorem document_words_preserved (text : str) (fuel : nat) :
  (length text < fuel)%nat ->
  exists out,
    split_into_paragraphs fuel text = Some out
    /\ concat (map split out) = split text
    /\ concat (map split (paragraphs text)) = split text.
Proof.
  intros Hf.
  destruct (split_into_paragraphs_words text fuel Hf) as (out & Hrun & Hw).
  exists out. split; [exact Hrun|]. split; [exact Hw|].
  apply paragraphs_words.
Qed.

Lemma document_words_preserved_witness :
  (length example_text < 200)%nat
  /\ exists out,
       split_into_paragraphs 200 example_text = Some out
       /\ concat (map split out) = split example_text
       /\ concat (map split (paragraphs example_text)) = split example_text.
Proof.
  assert (H : (length example_text < 200)%nat) by (vm_compute; lia).
  split; [exact H|]. exact (document_words_preserved example_text 200 H).
Defined.

(** X2. Every chunk of the output is non-empty, neither begins nor ends with
    whitespace, and holds at least one word. *)
Theorem chunks_trimmed_and_worded (text : str) (fuel : nat) :
  (length text < fuel)%nat ->
  exists out,
    split_into_paragraphs fuel text = Some out
    /\ Forall (fun c => trimmed c /\ 1 <= word_count c) out.
Proof.
  intros Hf. destruct (output_chunks text fuel Hf) as (out & Hrun & Hout).
  exists out. split; [exact Hrun|]. apply Forall_forall. intros c Hc.
  destruct (Hout c Hc) as (p & Hp & [[-> _]|(_ & wss & w & Hw & Hin & ->)]).
  - split; [now apply paragraphs_trimmed with text
           | now apply paragraphs_word_count with text].
  - destruct (window_words is_word _ _ _ _ Hw Hin (split_words p))
      as [Hws Hlen].
    split.
    + apply join_words_trimmed; [|assumption].
      intros E. subst w. simpl in Hlen. lia.
    + unfold word_count. rewrite split_join by assumption. lia.
Qed.

Lemma chunks_trimmed_and_worded_witness :
  (length example_text < 200)%nat
  /\ exists out,
       split_into_paragraphs 200 example_text = Some out
       /\ Forall (fun c => trimmed c /\ 1 <= word_count c) out.
Proof.
  assert (H : (length example_text < 200)%nat) by (vm_compute; lia).
  split; [exact H|]. exact (chunks_trimmed_and_worded example_text 200 H).
Defined.

(** X3. No chunk of the output has more words than the length threshold;
    a chunk cut from a long paragraph has at most [int(avg_words)] words. *)
Theorem chunks_within_threshold (text : str) (fuel : nat) :
  (length text < fuel)%nat ->
  exists out,
    split_into_paragraphs fuel text = Some out
    /\ Forall
         (fun c =>
            (inject_Z (word_count c)
             <= length_threshold (avg_words (paragraphs text)))%Q
            /\ (In c (paragraphs text)
                \/ word_count c <= int (avg_words (paragraphs text))))
         out.
Proof.
  intros Hf. destruct (output_chunks text fuel Hf) as (out & Hrun & Hout).
  exists out. split; [exact Hrun|]. apply Forall_forall. intros c Hc.
  destruct (Hout c Hc) as (p & Hp & [[-> Hle]|(_ & wss & w & Hw & Hin & ->)]).
  - auto.
  - destruct (window_words is_word _ _ _ _ Hw Hin (split_words p))
      as [Hws Hlen].
    assert (W : 1 <= int (avg_words (paragraphs text))).
    { apply text_window. intros E. rewrite E in Hp. contradiction. }
    assert (B : word_count (join [SPACE] w)
                <= int (avg_words (paragraphs text))).
    { unfold word_count. rewrite split_join by assumption. lia. }
    split; [|now right].
    apply Qle_trans with (inject_Z (int (avg_words (paragraphs text)))).
    + now rewrite <- Zle_Qle.
    + eapply Qle_trans; [apply int_le, avg_words_nonneg|].
      apply length_threshold_ge, avg_words_nonneg.
Qed.

Lemma chunks_within_threshold_witness :
  (length example_text < 200)%nat
  /\ exists out,
       split_into_paragraphs 200 example_text = Some out
       /\ Forall
            (fun c =>
               (inject_Z (word_count c)
                <= length_threshold (avg_words (paragraphs example_text)))%Q
               /\ (In c (paragraphs example_text)
                   \/ word_count c
                      <= int (avg_words (paragraphs example_text))))
            out.
Proof.
  assert (H : (length example_text < 200)%nat) by (vm_compute; lia).
  split; [exact H|]. exact (chunks_within_threshold example_text 200 H).
Defined.

Lemma split_into_paragraphs_nil_blank (text : str) (fuel : nat) :
  (length text < fuel)%nat ->
  split_into_paragraphs fuel text = Some [] -> blank text.
Proof.
  intros Hf Hrun.
  destruct (split_into_paragraphs_total text fuel Hf) as (cs & Hrun' & Hcs).
  rewrite Hrun in Hrun'. injection Hrun' as E.
  assert (L : (length (paragraphs text) <= length (concat cs))%nat).
  { apply length_concat_nonempty
      with (P := fun p c => chunks_of fuel text p = Some c).
    revert Hcs. apply Forall2_impl. tauto. }
  rewrite <- E in L. simpl in L.
  apply split_nil_blank. rewrite <- paragraphs_words.
  destruct (paragraphs text); [reflexivity | simpl in L; lia].
Qed.

(** X4. The segmenter returns the empty list exactly when the text holds
    nothing but whitespace. *)
Theorem empty_output_iff_blank (text : str) (fuel : nat) :
  (length text < fuel)%nat ->
  (split_into_paragraphs fuel text = Some [] <-> blank text).
Proof.
  intros Hf. split.
  - now apply split_into_paragraphs_nil_blank.
  - intros B. unfold split_into_paragraphs.
    now rewrite (paragraphs_blank text B).
Qed.

Lemma empty_output_iff_blank_witness :
  (length blank_text < 5)%nat
  /\ (split_into_paragraphs 5 blank_text = Some [] <-> blank blank_text).
Proof.
  assert (H : (length blank_text < 5)%nat) by (vm_compute; lia).
  split; [exact H|]. exact (empty_output_iff_blank blank_text 5 H).
Defined.

(** X5. A paragraph above the threshold is cut into
    [ceil(word_count / int(avg_words))] chunks, and into at least two. *)
Theorem long_paragraph_chunk_count (text : str) (fuel : nat) (p : str) :
  (length text < fuel)%nat ->
  In p (paragraphs text) ->
  (length_threshold (avg_words (paragraphs text)) < inject_Z (word_count p))%Q ->
  exists chunks,
    chunks_of fuel text p = Some chunks
    /\ Z.of_nat (length chunks)
       = ceil_div (word_count p) (int (avg_words (paragraphs text)))
    /\ (2 <= length chunks)%nat.
Proof.
  intros Hf Hp Hlong.
  assert (W : 1 <= int (avg_words (paragraphs text))).
  { apply text_window. intros E. rewrite E in Hp. contradiction. }
  destruct (for_body_total fuel (avg_words (paragraphs text))
              (length_threshold (avg_words (paragraphs text))) W p)
    as (c & Hc & _ & _ & _ & Hw).
  { now apply paragraphs_word_count with text. }
  { apply paragraphs_length in Hp. lia. }
  apply gt_iff in Hlong. destruct (Hw Hlong) as (wss & -> & Hwss).
  exists (map (join [SPACE]) wss). split; [exact Hc|].
  rewrite length_map.
  assert (N : Z.of_nat (length wss)
              = ceil_div (word_count p) (int (avg_words (paragraphs text)))).
  { assert (S1 : (1 <= Z.to_nat (int (avg_words (paragraphs text))))%nat)
      by lia.
    rewrite (window_count _ wss S1 (split p) Hwss).
    unfold word_count. now rewrite Z2Nat.id by lia. }
  split; [exact N|].
  assert (L : int (avg_words (paragraphs text)) < word_count p).
  { apply gt_iff in Hlong. rewrite Zlt_Qlt.
    eapply Qle_lt_trans; [|exact Hlong].
    eapply Qle_trans; [apply int_le, avg_words_nonneg|].
    apply length_threshold_ge, avg_words_nonneg. }
  assert (2 <= Z.of_nat (length wss)); [|lia].
  rewrite N. unfold ceil_div. apply Z.div_le_lower_bound; lia.
Qed.

Lemma long_paragraph_chunk_count_witness :
  (length example_text < 200)%nat
  /\ In example_p3 (paragraphs example_text)
  /\ (length_threshold (avg_words (paragraphs example_text))
      < inject_Z (word_count example_p3))%Q
  /\ exists chunks,
       chunks_of 200 example_text example_p3 = Some chunks
       /\ Z.of_nat (length chunks)
          = ceil_div (word_count example_p3)
              (int (avg_words (paragraphs example_text)))
       /\ (2 <= length chunks)%nat.
Proof.
  assert (H1 : (length example_text < 200)%nat) by (vm_compute; lia).
  assert (H2 : In example_p3 (paragraphs example_text))
    by (vm_compute; tauto).
  assert (H3 : (length_threshold (avg_words (paragraphs example_text))
                < inject_Z (word_count example_p3))%Q)
    by (vm_compute; reflexivity).
  split; [exact H1|]. split; [exact H2|]. split; [exact H3|].
  exact (long_paragraph_chunk_count example_text 200 example_p3 H1 H2 H3).
Defined.

Lemma uniform_short (ps : list str) (p : str) :
  (forall q r, In q ps -> In r ps -> word_count q = word_count r) ->
  In p ps ->
  gt (word_count p) (length_threshold (avg_words ps)) = false.
Proof.
  intros U Hp. apply at_most_mean_short.
  assert (Hne : ps <> []) by (intros E; rewrite E in Hp; contradiction).
  rewrite (avg_words_nonempty _ Hne).
  rewrite (total_words_uniform (word_count p))
    by (intros q Hq; now apply U).
  assert (0 < num_paragraphs ps).
  { unfold num_paragraphs. destruct ps; [now elim Hne | simpl length; lia]. }
  apply Qle_shift_div_l.
  - change 0%Q with (inject_Z 0). now rewrite <- Zlt_Qlt.
  - rewrite <- inject_Z_mult, <- Zle_Qle. lia.
Qed.

(** X6. When all the paragraphs of a text have the same number of words
    (a single paragraph included), nothing is cut: the output is the list of
    trimmed paragraphs, and no inner loop runs, whatever the budget. *)
Theorem uniform_paragraphs_unchanged (text : str) (fuel : nat) :
  (forall p q, In p (paragraphs text) -> In q (paragraphs text) ->
               word_count p = word_count q) ->
  split_into_paragraphs fuel text = Some (paragraphs text).
Proof.
  intros U. unfold split_into_paragraphs.
  apply (for_paragraph_all_short fuel _ _ (paragraphs text)).
  intros p Hp. now apply uniform_short.
Qed.

Lemma uniform_paragraphs_unchanged_witness :
  (forall p q, In p (paragraphs uniform_text) ->
               In q (paragraphs uniform_text) ->
               word_count p = word_count q)
  /\ split_into_paragraphs 0 uniform_text
     = Some [of_string "one two";
             of_string "three" ++ [LF] ++ of_string "four";
             of_string "five  six"].
Proof.
  assert (H : forall p q, In p (paragraphs uniform_text) ->
                          In q (paragraphs uniform_text) ->
                          word_count p = word_count q).
  { assert (K : forall p, In p (paragraphs uniform_text) -> word_count p = 2).
    { intros p Hp. vm_compute in Hp.
      destruct Hp as [<-|[<-|[<-|[]]]]; reflexivity. }
    intros p q Hp Hq. now rewrite (K p Hp), (K q Hq). }
  split; [exact H|].
  exact (uniform_paragraphs_unchanged uniform_text 0 H).
Defined.

(** X7. No chunk of the output holds a paragraph separator (a newline,
    optional whitespace, a newline). *)
Theorem chunks_without_separator (text : str) (fuel : nat) :
  (length text < fuel)%nat ->
  exists out,
    split_into_paragraphs fuel text = Some out
    /\ Forall (fun c => ~ has_separator c) out.
Proof.
  intros Hf. destruct (output_chunks text fuel Hf) as (out & Hrun & Hout).
  exists out. split; [exact Hrun|]. apply Forall_forall. intros c Hc.
  destruct (Hout c Hc) as (p & Hp & [[-> _]|(_ & wss & w & Hw & Hin & ->)]).
  - now apply paragraphs_clean with text.
  - apply join_words_clean.
    apply (window_words is_word _ _ _ _ Hw Hin (split_words p)).
Qed.

Lemma chunks_without_separator_witness :
  (length example_text < 200)%nat
  /\ exists out,
       split_into_paragraphs 200 example_text = Some out
       /\ Forall (fun c => ~ has_separator c) out.
Proof.
  assert (H : (length example_text < 200)%nat) by (vm_compute; lia).
  split; [exact H|]. exact (chunks_without_separator example_text 200 H).
Defined.

(** X8. The inner loop has no guard of its own: were the body of the outer
    loop run on a paragraph above the threshold with a mean below 1, so that
    [int(avg_words)] is 0, it would never finish, whatever the budget.
    ([segmenter_terminates] shows that no text leads there.) *)
Theorem zero_window_never_exits
    (avg thr : Q) (adjusted : list str) (p : str) :
  int avg = 0 ->
  (0 <= thr)%Q ->
  (thr < inject_Z (word_count p))%Q ->
  forall fuel, for_body fuel avg thr adjusted p = None.
Proof.
  intros Hz Hthr Hlong fuel. unfold for_body.
  rewrite (proj2 (gt_iff _ _) Hlong).
  apply while_start_stuck; [exact Hz|].
  intros E. unfold word_count in Hlong. rewrite E in Hlong. simpl in Hlong.
  apply (Qlt_not_le _ _ Hlong). exact Hthr.
Qed.

Lemma zero_window_never_exits_witness :
  int (1 # 2) = 0
  /\ (0 <= length_threshold (1 # 2))%Q
  /\ (length_threshold (1 # 2) < inject_Z (word_count example_p1))%Q
  /\ forall fuel,
       for_body fuel (1 # 2) (length_threshold (1 # 2)) [] example_p1 = None.
Proof.
  assert (H1 : int (1 # 2) = 0) by reflexivity.
  assert (H2 : (0 <= length_threshold (1 # 2))%Q) by (vm_compute; discriminate).
  assert (H3 : (length_threshold (1 # 2)
                < inject_Z (word_count example_p1))%Q)
    by (vm_compute; reflexivity).
  split; [exact H1|]. split; [exact H2|]. split; [exact H3|].
  exact (zero_window_never_exits (1 # 2) (length_threshold (1 # 2)) []
           example_p1 H1 H2 H3).
Defined.

(** ** More on the classifier *)

Section MoreClassifierFacts.

Variable client : Type.
Variable create : client -> request -> result completion * client.

Lemma classify_one_spec (c : client) (p : str) :
  classify_one client create c p
  = (label_of (fst (create c (request_of p))),
     events_of p (fst (create c (request_of p))),
     snd (create c (request_of p))).
Proof.
  unfold classify_one, label_of, events_of, failure_of.
  destruct (create c (request_of p)) as [[completion|e] c']; simpl.
  - destruct (topic_of completion); reflexivity.
  - reflexivity.
Qed.

(** The whole result of the loop: the labels, the events and the state of
    the service. *)
Lemma classify_loop_spec (ps : list str) :
  forall c topics t,
  classify_loop client create c ps topics t
  = (topics ++ map label_of (answers create c ps),
     t ++ concat (map (fun pa => events_of (fst pa) (snd pa))
                    (combine ps (answers create c ps))),
     state_after create c ps).
Proof.
  induction ps as [|p ps IH]; intros c topics t; simpl.
  - now rewrite !app_nil_r.
  - rewrite classify_one_spec.
    destruct (create c (request_of p)) as [a c']. simpl.
    rewrite IH, <- !app_assoc. reflexivity.
Qed.

Lemma classify_paragraphs_spec (c : client) (ps : list str) :
  classify_paragraphs client create c ps
  = (map label_of (answers create c ps),
     concat (map (fun pa => events_of (fst pa) (snd pa))
               (combine ps (answers create c ps))),
     state_after create c ps).
Proof. unfold classify_paragraphs. now rewrite classify_loop_spec. Qed.

Lemma answers_app (ps1 ps2 : list str) :
  forall c,
  answers create c (ps1 ++ ps2)
  = answers create c ps1 ++ answers create (state_after create c ps1) ps2.
Proof.
  induction ps1 as [|p ps1 IH]; intros c; simpl; [reflexivity|].
  destruct (create c (request_of p)) as [a c']. simpl. now rewrite IH.
Qed.

Lemma state_after_app (ps1 ps2 : list str) :
  forall c,
  state_after create c (ps1 ++ ps2)
  = state_after create (state_after create c ps1) ps2.
Proof.
  induction ps1 as [|p ps1 IH]; intros c; simpl; [reflexivity|]. apply IH.
Qed.

Lemma combine_app_same {A B : Type} (l1 l2 : list A) (k1 k2 : list B) :
  length l1 = length k1 ->
  combine (l1 ++ l2) (k1 ++ k2) = combine l1 k1 ++ combine l2 k2.
Proof.
  revert k1. induction l1 as [|x l1 IH]; intros [|y k1] H; simpl in *;
    try discriminate; [reflexivity|].
  f_equal. apply IH. now injection H.
Qed.

Lemma label_of_trimmed (a : result completion) :
  strip (label_of a) = label_of a.
Proof.
  destruct a as [[|[text|] rest]|e]; simpl; try reflexivity.
  apply strip_strip.
Qed.

Lemma events_of_prints (p : str) (a : result completion) :
  length (filter is_print (events_of p a))
  = if call_failed a then 1%nat else 0%nat.
Proof.
  unfold events_of, call_failed. destruct (failure_of a); reflexivity.
Qed.

Lemma call_failed_iff (a : result completion) :
  call_failed a = true <-> failed a.
Proof.
  unfold call_failed, failure_of, failed.
  destruct a as [completion|e]; [destruct (topic_of completion)|];
    simpl; intuition discriminate.
Qed.

End MoreClassifierFacts.

Lemma events_counts (ps : list str) :
  forall l : list (result completion),
  length ps = length l ->
  let t := concat (map (fun pa => events_of (fst pa) (snd pa))
                     (combine ps l)) in
  length (filter is_print t) = length (filter call_failed l)
  /\ length (filter is_create t) = length ps
  /\ length t = (length ps + length (filter call_failed l))%nat.
Proof.
  induction ps as [|p ps IH]; intros [|a l] E; try discriminate.
  - simpl. auto.
  - injection E as E. destruct (IH l E) as (H1 & H2 & H3).
    cbn [combine map concat fst snd filter].
    rewrite !filter_app, !length_app, H1, H2, H3.
    unfold events_of, call_failed.
    destruct (failure_of a); simpl; repeat split; lia.
Qed.

(** X9. Classifying a list of chunks made of two parts is classifying the
    first part and then the second from the state the service was left in:
    the labels and the events follow one another. *)
Theorem classify_paragraphs_app
    (client : Type) (create : client -> request -> result completion * client)
    (c : client) (ps1 ps2 : list str) :
  classify_paragraphs client create c (ps1 ++ ps2)
  = let '(topics1, t1, c1) := classify_paragraphs client create c ps1 in
    let '(topics2, t2, c2) := classify_paragraphs client create c1 ps2 in
    (topics1 ++ topics2, t1 ++ t2, c2).
Proof.
  rewrite !classify_paragraphs_spec.
  rewrite answers_app, state_after_app, map_app.
  assert (L : length ps1 = length (answers create c ps1))
    by (symmetry; apply length_answers).
  rewrite combine_app_same by exact L.
  now rewrite map_app, concat_app.
Qed.

(** X10. The events of the classifier are, chunk by chunk and in order, the
    request for the chunk followed by one error line exactly when that call
    failed; so there are as many error lines as failed calls and as many
    requests as chunks. *)
Theorem classifier_events
    (client : Type) (create : client -> request -> result completion * client)
    (c : client) (ps : list str) :
  let t := snd (fst (classify_paragraphs client create c ps)) in
  t = concat (map (fun pa => events_of (fst pa) (snd pa))
                (combine ps (answers create c ps)))
  /\ length (filter is_print t)
     = length (filter call_failed (answers create c ps))
  /\ length (filter is_create t) = length ps
  /\ length t = (length ps + length (filter call_failed (answers create c ps)))%nat.
Proof.
  rewrite classify_paragraphs_spec. cbn [fst snd].
  split; [reflexivity|].
  apply events_counts. symmetry. apply length_answers.
Qed.

(** X11. Every label returned by the classifier is free of surrounding
    whitespace. *)
Theorem labels_trimmed
    (client : Type) (create : client -> request -> result completion * client)
    (c : client) (ps : list str) :
  Forall (fun topic => strip topic = topic)
    (fst (fst (classify_paragraphs client create c ps))).
Proof.
  rewrite classify_paragraphs_spec. simpl.
  apply Forall_forall. intros topic H. apply in_map_iff in H.
  destruct H as (a & <- & _). apply label_of_trimmed.
Qed.

(** ** More on [main] *)

Section MoreMainFacts.

Lemma map_fst_combine_same {A B : Type} (l : list A) (k : list B) :
  length l = length k -> map fst (combine l k) = l /\ map snd (combine l k) = k.
Proof.
  revert k. induction l as [|x l IH]; intros [|y k] H; simpl in *;
    try discriminate; [auto|].
  injection H as H. destruct (IH k H) as [-> ->]. auto.
Qed.

Lemma prints_not_calls (ls : list line) :
  filter is_to_csv (map EPrint ls) = []
  /\ filter is_create (map EPrint ls) = [].
Proof. induction ls as [|l ls [H1 H2]]; simpl; auto. Qed.

Lemma events_not_to_csv (pas : list (str * result completion)) :
  filter is_to_csv
    (concat (map (fun pa => events_of (fst pa) (snd pa)) pas)) = [].
Proof.
  induction pas as [|[p a] pas IH]; simpl; [reflexivity|].
  rewrite filter_app, IH. unfold events_of.
  destruct (failure_of a); reflexivity.
Qed.

End MoreMainFacts.

(** X12. When the PDF is read, the segmenter returns at least one chunk and
    the table is saved, the table handed to [to_csv] has one row per chunk,
    in order: the chunk itself and the label of the answer to its request;
    and the run is the read, the two statistics lines, the classifier's
    events, the write and the closing line. *)
Theorem main_saves_aligned_table
    (client : Type) (create : client -> request -> result completion * client)
    (e1 e2 : bool) (read_pdf : string -> result str)
    (to_csv : string -> table -> result unit) (fuel : nat) (c : client)
    (text : str) (out : list str) :
  read_pdf (news_path e1) = Ok text ->
  split_into_paragraphs fuel text = Some out ->
  out <> [] ->
  to_csv (csv_path e2)
    (combine out (fst (fst (classify_paragraphs client create c out))))
  = Ok tt ->
  exists df,
    main client create e1 e2 read_pdf to_csv fuel c
    = Some (EReadPdf (news_path e1)
              :: map EPrint (split_into_paragraphs_prints text)
              ++ snd (fst (classify_paragraphs client create c out))
              ++ [EToCsv (csv_path e2) df;
                  EPrint [Lit "Classified results saved to '"%string;
                          Lit (csv_path e2); Lit "'."%string]],
            Returned)
    /\ length df = length out
    /\ map fst df = out
    /\ map snd df = map label_of (answers create c out).
Proof.
  intros R S Hne W.
  pose proof (main_classified client create e1 e2 read_pdf to_csv
                fuel c text out R S Hne) as M.
  cbv zeta in M. rewrite W in M.
  exists (combine out (fst (fst (classify_paragraphs client create c out)))).
  split; [exact M|].
  assert (L : length out
              = length (fst (fst (classify_paragraphs client create c out))))
    by (symmetry; apply classify_paragraphs_length).
  destruct (map_fst_combine_same _ _ L) as [F1 F2].
  split; [|split].
  - rewrite length_combine, <- L. apply Nat.min_id.
  - exact F1.
  - rewrite F2, classify_paragraphs_spec. reflexivity.
Qed.

Lemma main_saves_aligned_table_witness :
  reader_of example_text (news_path false) = Ok example_text
  /\ split_into_paragraphs 4 example_text
     = Some ([example_p1; example_p2] ++ example_chunks)
  /\ [example_p1; example_p2] ++ example_chunks <> []
  /\ exists df,
       main nat service_flaky false false (reader_of example_text) writer_ok
         4 0%nat
       = Some (EReadPdf (news_path false)
                 :: map EPrint (split_into_paragraphs_prints example_text)
                 ++ snd (fst (classify_paragraphs nat service_flaky 0%nat
                                ([example_p1; example_p2] ++ example_chunks)))
                 ++ [EToCsv (csv_path false) df;
                     EPrint [Lit "Classified results saved to '"%string;
                             Lit (csv_path false); Lit "'."%string]],
               Returned)
       /\ length df = length ([example_p1; example_p2] ++ example_chunks)
       /\ map fst df = [example_p1; example_p2] ++ example_chunks
       /\ map snd df
          = map label_of
              (answers service_flaky 0%nat
                 ([example_p1; example_p2] ++ example_chunks)).
Proof.
  assert (R : reader_of example_text (news_path false) = Ok example_text)
    by reflexivity.
  assert (S : split_into_paragraphs 4 example_text
              = Some ([example_p1; example_p2] ++ example_chunks))
    by (vm_compute; reflexivity).
  assert (N : [example_p1; example_p2] ++ example_chunks <> [])
    by discriminate.
  split; [exact R|]. split; [exact S|]. split; [exact N|].
  exact (main_saves_aligned_table nat service_flaky false false
           (reader_of example_text) writer_ok 4 0%nat example_text _
           R S N eq_refl).
Defined.

(** X13. In every run of [main], either nothing is classified and nothing is
    written (the PDF could not be read, or the segmenter returned no chunk),
    or the segmenter returned chunks, one request was made per chunk, in
    order, and then the table was handed to [to_csv] once, after the last
    request, followed only by the closing line. *)
Theorem main_write_cases
    (client : Type) (create : client -> request -> result completion * client)
    (e1 e2 : bool) (read_pdf : string -> result str)
    (to_csv : string -> table -> result unit) (fuel : nat) (c : client)
    (t : trace) (o : outcome) :
  main client create e1 e2 read_pdf to_csv fuel c = Some (t, o) ->
  (filter is_to_csv t = []
   /\ filter is_create t = []
   /\ ((exists e, read_pdf (news_path e1) = Raise e)
       \/ (exists text, read_pdf (news_path e1) = Ok text
                        /\ split_into_paragraphs fuel text = Some [])))
  \/ (exists text out t' closing,
        read_pdf (news_path e1) = Ok text
        /\ split_into_paragraphs fuel text = Some out
        /\ out <> []
        /\ t = t' ++ [EToCsv (csv_path e2)
                        (combine out
                           (map label_of (answers create c out)));
                      EPrint closing]
        /\ filter is_to_csv t' = []
        /\ filter is_create t' = map (fun p => ECreate (request_of p)) out).
Proof.
  intros M.
  destruct (read_pdf (news_path e1)) as [text|e] eqn:R.
  - destruct (split_into_paragraphs fuel text) as [out|] eqn:S.
    + destruct out as [|p ps].
      * left.
        rewrite (main_no_paragraphs client create e1 e2 read_pdf to_csv
                   fuel c text R S) in M.
        injection M as <- <-.
        split; [reflexivity|]. split; [reflexivity|]. right. eauto.
      * right.
        rewrite (main_classified client create e1 e2 read_pdf to_csv
                   fuel c text (p :: ps) R S) in M by discriminate.
        set (t' := (EReadPdf (news_path e1)
                      :: map EPrint (split_into_paragraphs_prints text))
                   ++ snd (fst (classify_paragraphs client create c
                                  (p :: ps)))).
        assert (T1 : filter is_to_csv t' = []).
        { unfold t'. rewrite classify_paragraphs_spec. cbn [fst snd].
          rewrite filter_app, events_not_to_csv. reflexivity. }
        assert (T2 : filter is_create t'
                     = map (fun p => ECreate (request_of p)) (p :: ps)).
        { unfold t'. rewrite filter_app.
          unfold classify_paragraphs.
          rewrite (proj2 (classify_loop_labels client create (p :: ps)
                            c [] [])).
          reflexivity. }
        assert (L : fst (fst (classify_paragraphs client create c (p :: ps)))
                    = map label_of (answers create c (p :: ps)))
          by (rewrite classify_paragraphs_spec; reflexivity).
        rewrite L in M.
        destruct (to_csv (csv_path e2)
                    (combine (p :: ps)
                       (map label_of (answers create c (p :: ps)))));
          injection M as <- <-;
          exists text, (p :: ps), t'; eexists;
          (split; [reflexivity|]); (split; [exact S|]);
          (split; [discriminate|]);
          (split; [|split; assumption]);
          unfold t'; rewrite <- !app_assoc; reflexivity.
    + unfold main in M. rewrite R, S in M. discriminate.
  - left.
    rewrite (main_read_failure client create e1 e2 read_pdf to_csv
               fuel c e R) in M.
    injection M as <- <-.
    split; [reflexivity|]. split; [reflexivity|]. left. eauto.
Qed.

Lemma main_write_cases_witness :
  (main unit service_down false false reader_missing writer_ok 0 tt
   = Some ([EReadPdf "news.pdf";
            EPrint [Lit "Failed to read the PDF: "%string;
                    Exn "No such file or directory"%string]], Returned))
  /\ ((filter is_to_csv
         [EReadPdf "news.pdf";
          EPrint [Lit "Failed to read the PDF: "%string;
                  Exn "No such file or directory"%string]] = []
       /\ filter is_create
            [EReadPdf "news.pdf";
             EPrint [Lit "Failed to read the PDF: "%string;
                     Exn "No such file or directory"%string]] = []
       /\ ((exists e, reader_missing (news_path false) = Raise e)
           \/ (exists text, reader_missing (news_path false) = Ok text
                            /\ split_into_paragraphs 0 text = Some [])))
      \/ (exists text out t' closing,
            reader_missing (news_path false) = Ok text
            /\ split_into_paragraphs 0 text = Some out
            /\ out <> []
            /\ [EReadPdf "news.pdf";
                EPrint [Lit "Failed to read the PDF: "%string;
                        Exn "No such file or directory"%string]]
               = t' ++ [EToCsv (csv_path false)
                          (combine out
                             (map label_of (answers service_down tt out)));
                        EPrint closing]
            /\ filter is_to_csv t' = []
            /\ filter is_create t'
               = map (fun p => ECreate (request_of p)) out)).
Proof.
  assert (M : main unit service_down false false reader_missing writer_ok 0 tt
              = Some ([EReadPdf "news.pdf";
                       EPrint [Lit "Failed to read the PDF: "%string;
                               Exn "No such file or directory"%string]],
                      Returned)) by reflexivity.
  split; [exact M|].
  exact (main_write_cases unit service_down false false reader_missing
           writer_ok 0 tt _ _ M).
Defined.

(** ** The extractor *)

Section ExtractorFacts.

Lemma extract_all_ok (texts : list str) :
  Extractor.extract_all (map Ok texts) = Ok texts.
Proof.
  induction texts as [|t texts IH]; simpl; [reflexivity|]. now rewrite IH.
Qed.

Lemma extract_all_ok_inv (pages : list Extractor.page) :
  forall texts, Extractor.extract_all pages = Ok texts -> pages = map Ok texts.
Proof.
  induction pages as [|[t|e] pages IH]; intros texts H; simpl in H.
  - now injection H as <-.
  - destruct (Extractor.extract_all pages) as [ts|]; [|discriminate].
    injection H as <-. simpl. now rewrite (IH ts eq_refl).
  - discriminate.
Qed.

Lemma extract_all_raise (texts : list str) (e : exn)
    (rest : list Extractor.page) :
  Extractor.extract_all (map Ok texts ++ Raise e :: rest) = Raise e.
Proof.
  induction texts as [|t texts IH]; simpl; [reflexivity|]. now rewrite IH.
Qed.

Lemma extract_all_raise_inv (pages : list Extractor.page) (e : exn) :
  Extractor.extract_all pages = Raise e ->
  exists texts rest, pages = map Ok texts ++ Raise e :: rest.
Proof.
  induction pages as [|[t|e'] pages IH]; intros H; simpl in H.
  - discriminate.
  - destruct (Extractor.extract_all pages) as [ts|e''] eqn:E; [discriminate|].
    injection H as ->. destruct (IH eq_refl) as (texts & rest & ->).
    exists (t :: texts), rest. reflexivity.
  - injection H as ->. exists [], pages. reflexivity.
Qed.

Lemma split_scan_acc_length (s : str) :
  forall cur1 cur2, cur1 <> [] -> cur2 <> [] ->
  length (split_scan cur1 s) = length (split_scan cur2 s).
Proof.
  induction s as [|c s IH]; intros cur1 cur2 H1 H2; simpl.
  - destruct cur1; [now elim H1|]. destruct cur2; [now elim H2|]. reflexivity.
  - destruct (isspace c).
    + rewrite !length_app. destruct cur1; [now elim H1|].
      destruct cur2; [now elim H2|]. reflexivity.
    + apply IH; discriminate.
Qed.

Lemma last_cons_default {A : Type} (x : A) (l : list A) (d d' : A) :
  last (x :: l) d = last (x :: l) d'.
Proof.
  revert x. induction l as [|y l IH]; intros x; [reflexivity|].
  change (last (x :: y :: l) d) with (last (y :: l) d).
  change (last (x :: y :: l) d') with (last (y :: l) d'). apply IH.
Qed.

(** The words of two texts put end to end, with the word being read at the
    start of the first one in [cur]. *)
Lemma split_scan_junction (a : str) :
  forall cur b, Forall nonspace cur ->
  (length (split_scan cur (a ++ b))
   + (if negb (isspace (last a (hd SPACE cur)))
         && negb (isspace (hd SPACE b)) then 1 else 0)
   = length (split_scan cur a) + length (split b))%nat.
Proof.
  unfold split. induction a as [|c a IH]; intros cur b Hcur.
  - simpl app. simpl last. simpl split_scan at 2.
    destruct cur as [|x cur].
    + simpl. lia.
    + inversion Hcur as [|? ? Hx _]; subst. unfold nonspace in Hx.
      simpl hd. rewrite Hx. cbn [negb andb].
      destruct b as [|y b].
      * simpl. lia.
      * simpl hd. cbn [split_scan].
        destruct (isspace y) eqn:Hy; cbn [negb flush app].
        -- simpl length. lia.
        -- rewrite (split_scan_acc_length b (y :: x :: cur) [y])
             by discriminate.
           simpl length. lia.
  - change ((c :: a) ++ b) with (c :: a ++ b). cbn [split_scan].
    change (last (c :: a) (hd SPACE cur)) with (last (c :: a) (hd SPACE cur)).
    destruct (isspace c) eqn:Hc.
    + rewrite !length_app.
      specialize (IH [] b (Forall_nil _)). simpl hd in IH.
      assert (E : isspace (last (c :: a) (hd SPACE cur))
                  = isspace (last a SPACE)).
      { destruct a as [|x a]; [simpl; now rewrite Hc|].
        change (last (c :: x :: a) (hd SPACE cur))
          with (last (x :: a) (hd SPACE cur)).
        now rewrite (last_cons_default x a (hd SPACE cur) SPACE). }
      rewrite E. lia.
    + specialize (IH (c :: cur) b (Forall_cons _ Hc Hcur)). simpl hd in IH.
      assert (E : last (c :: a) (hd SPACE cur) = last a c).
      { destruct a as [|x a]; [reflexivity|].
        change (last (c :: x :: a) (hd SPACE cur))
          with (last (x :: a) (hd SPACE cur)).
        apply last_cons_default. }
      rewrite E. exact IH.
Qed.

(** Two texts put end to end have the words of both, less one when a word
    runs across the junction. *)
Lemma split_junction (a b : str) :
  (length (split (a ++ b)) + glued a b
   = length (split a) + length (split b))%nat.
Proof. apply (split_scan_junction a [] b). constructor. Qed.

Lemma glued_le_1 (a b : str) : (glued a b <= 1)%nat.
Proof.
  unfold glued.
  destruct (negb (isspace (last a SPACE)) && negb (isspace (hd SPACE b))); lia.
Qed.

Lemma junctions_le (texts : list str) :
  forall acc, (junctions acc texts <= length texts)%nat.
Proof.
  induction texts as [|t texts IH]; intros acc; simpl; [lia|].
  pose proof (glued_le_1 acc t). specialize (IH (acc ++ t)). lia.
Qed.

Lemma pages_junctions (texts : list str) :
  forall acc,
  (length (split (acc ++ concat texts)) + junctions acc texts
   = length (split acc) + words_of_pages texts)%nat.
Proof.
  unfold words_of_pages.
  induction texts as [|t texts IH]; intros acc; simpl.
  - rewrite app_nil_r. lia.
  - rewrite app_assoc. specialize (IH (acc ++ t)).
    pose proof (split_junction acc t). lia.
Qed.

Lemma concat_blank (texts : list str) :
  Forall blank texts -> blank (concat texts).
Proof.
  induction 1 as [|t texts Ht _ IH]; simpl; [constructor|].
  apply Forall_app. split; assumption.
Qed.

End ExtractorFacts.

Lemma read_pdf_texts
    (PdfReader : string -> result (list Extractor.page))
    (file_path : string) (texts : list str) :
  PdfReader file_path = Ok (map Ok texts) ->
  Extractor.read_pdf PdfReader file_path = Ok (concat texts).
Proof.
  intros H. unfold Extractor.read_pdf.
  now rewrite H, extract_all_ok, join_nil_concat.
Qed.

(** X14. [read_pdf] returns a text exactly when the document opens and every
    page gives its text, and the text is then the page texts put end to end,
    in page order, with nothing between them. *)
Theorem read_pdf_ok_iff
    (PdfReader : string -> result (list Extractor.page))
    (file_path : string) (text : str) :
  Extractor.read_pdf PdfReader file_path = Ok text
  <-> exists texts,
        PdfReader file_path = Ok (map Ok texts) /\ text = concat texts.
Proof.
  unfold Extractor.read_pdf. split.
  - destruct (PdfReader file_path) as [pages|e]; [|discriminate].
    destruct (Extractor.extract_all pages) as [texts|e] eqn:E; [|discriminate].
    intros H. injection H as <-. exists texts.
    apply extract_all_ok_inv in E. subst pages.
    split; [reflexivity | apply join_nil_concat].
  - intros (texts & H & ->). fold (Extractor.read_pdf PdfReader file_path).
    now apply read_pdf_texts.
Qed.

(** X15. [read_pdf] raises exactly when the document does not open, with
    that exception, or when some page cannot be read, with the exception of
    the first such page; the pages after it play no part. *)
Theorem read_pdf_raise_iff
    (PdfReader : string -> result (list Extractor.page))
    (file_path : string) (e : exn) :
  Extractor.read_pdf PdfReader file_path = Raise e
  <-> PdfReader file_path = Raise e
      \/ exists texts rest,
           PdfReader file_path = Ok (map Ok texts ++ Raise e :: rest).
Proof.
  unfold Extractor.read_pdf. split.
  - destruct (PdfReader file_path) as [pages|e'].
    + destruct (Extractor.extract_all pages) as [texts|e'] eqn:E;
        [discriminate|].
      intros H. injection H as ->. right.
      apply extract_all_raise_inv in E. destruct E as (texts & rest & ->).
      eauto.
    + intros H. injection H as ->. now left.
  - intros [->|(texts & rest & ->)]; [reflexivity|].
    now rewrite extract_all_raise.
Qed.

(** X16. Since pages are joined without a separator, a word may run across a
    page break: the text has the words of all the pages, less one for each
    page break that falls inside a word, hence never more words than the
    pages together and at most one fewer per page break. *)
Theorem read_pdf_page_breaks
    (PdfReader : string -> result (list Extractor.page))
    (file_path : string) (texts : list str) :
  PdfReader file_path = Ok (map Ok texts) ->
  exists text,
    Extractor.read_pdf PdfReader file_path = Ok text
    /\ (length (split text) + junctions [] texts = words_of_pages texts)%nat
    /\ (junctions [] texts <= pred (length texts))%nat
    /\ (forall a b, texts = [a; b] ->
        text = a ++ b /\ junctions [] texts = glued a b).
Proof.
  intros H. exists (concat texts). split; [|split; [|split]].
  - now apply read_pdf_texts.
  - apply (pages_junctions texts []).
  - destruct texts as [|t texts]; [simpl; lia|].
    simpl. pose proof (junctions_le texts t). unfold glued. simpl. lia.
  - intros a b ->. simpl. rewrite app_nil_r. split; [reflexivity|].
    unfold glued. simpl. lia.
Qed.

Lemma read_pdf_page_breaks_witness :
  pdf_two_pages "news.pdf"%string = Ok (map Ok [page_one; page_two])
  /\ exists text,
       Extractor.read_pdf pdf_two_pages "news.pdf"%string = Ok text
       /\ (length (split text) + junctions [] [page_one; page_two]
           = words_of_pages [page_one; page_two])%nat
       /\ (junctions [] [page_one; page_two] <= pred 2)%nat
       /\ (forall a b,
             [page_one; page_two] = [a; b] ->
             text = a ++ b
             /\ junctions [] [page_one; page_two] = glued a b).
Proof.
  assert (H : pdf_two_pages "news.pdf"%string
              = Ok (map Ok [page_one; page_two])) by reflexivity.
  split; [exact H|].
  exact (read_pdf_page_breaks pdf_two_pages "news.pdf"%string _ H).
Defined.

(** The two pages of the example break inside the word "Short": read
    together they give the text of the worked example, with one word fewer
    than the pages counted apart. *)
Example read_pdf_two_pages :
  Extractor.read_pdf pdf_two_pages "news.pdf"%string = Ok example_text
  /\ glued page_one page_two = 1%nat
  /\ words_of_pages [page_one; page_two] = 21%nat
  /\ length (split example_text) = 20%nat.
Proof. repeat split. Qed.

(** ** The script as a whole *)



(** X18. When the key is set, the client is built and the file is run as
    the main program on a document whose pages hold only whitespace (or
    that has no page), the script reads the document, prints the two
    statistics (both 0) and the notice, and returns: nothing is classified
    and nothing is written, whatever the budget. *)
Theorem script_blank_document
    (getenv : string -> option str) (client : Type)
    (create : client -> request -> result completion * client)
    (OpenAI : str -> result client) (e1 e2 : bool)
    (PdfReader : string -> result (list Extractor.page))
    (to_csv : string -> table -> result unit) (fuel : nat)
    (key : str) (c : client) (texts : list str) :
  getenv "OPENAI_API_KEY"%string = Some key ->
  key <> [] ->
  OpenAI key = Ok c ->
  PdfReader (news_path e1) = Ok (map Ok texts) ->
  Forall blank texts ->
  Script.script getenv client create OpenAI e1 e2 PdfReader to_csv true fuel
  = Some ([EReadPdf (news_path e1);
           EPrint [Lit "Average words per paragraph: "%string; Num 0];
           EPrint [Lit "Length threshold:"%string; Num (length_threshold 0)];
           EPrint [Lit "No paragraphs found in the document."%string]],
          Returned).
Proof.
  intros G K O P B. unfold Script.script. rewrite G.
  destruct key as [|k key]; [now elim K|]. cbn [truthy negb]. rewrite O.
  pose proof (read_pdf_texts PdfReader (news_path e1) texts P) as R.
  assert (E : paragraphs (concat texts) = [])
    by (apply paragraphs_blank, concat_blank, B).
  rewrite (main_no_paragraphs client create e1 e2
             (Extractor.read_pdf PdfReader) to_csv fuel c (concat texts) R).
  - unfold split_into_paragraphs_prints. rewrite E. reflexivity.
  - unfold split_into_paragraphs. rewrite E. reflexivity.
Qed.

Lemma script_blank_document_witness :
  env_key "OPENAI_API_KEY"%string = Some (of_string "sk-test")
  /\ of_string "sk-test" <> []
  /\ client_ok (of_string "sk-test") = Ok tt
  /\ pdf_blank (news_path false) = Ok (map Ok [[SPACE; LF]; []; [LF; LF; SPACE]])
  /\ Forall blank [[SPACE; LF]; []; [LF; LF; SPACE]]
  /\ Script.script env_key unit service_sports client_ok false false
       pdf_blank writer_ok true 0
     = Some ([EReadPdf (news_path false);
              EPrint [Lit "Average words per paragraph: "%string; Num 0];
              EPrint [Lit "Length threshold:"%string;
                      Num (length_threshold 0)];
              EPrint [Lit "No paragraphs found in the document."%string]],
             Returned).
Proof.
  assert (G : env_key "OPENAI_API_KEY"%string = Some (of_string "sk-test"))
    by reflexivity.
  assert (K : of_string "sk-test" <> []) by discriminate.
  assert (O : client_ok (of_string "sk-test") = Ok tt) by reflexivity.
  assert (P : pdf_blank (news_path false)
              = Ok (map Ok [[SPACE; LF]; []; [LF; LF; SPACE]]))
    by reflexivity.
  assert (B : Forall blank [[SPACE; LF]; []; [LF; LF; SPACE]])
    by (repeat constructor).
  split; [exact G|]. split; [exact K|]. split; [exact O|].
  split; [exact P|]. split; [exact B|].
  exact (script_blank_document env_key unit service_sports client_ok
           false false pdf_blank writer_ok 0 _ tt _ G K O P B).
Defined.

(** X19. From the pages to the table: when the key is set, the client is
    built, every page is read, the document holds a word and the table is
    saved, the script hands [to_csv] one table whose text column, read word
    by word from the first row to the last, is the document read word by
    word; one request was made per row, and the exit status is 0. *)
Theorem script_table_holds_document
    (getenv : string -> option str) (client : Type)
    (create : client -> request -> result completion * client)
    (OpenAI : str -> result client) (e1 e2 : bool)
    (PdfReader : string -> result (list Extractor.page))
    (to_csv : string -> table -> result unit) (fuel : nat)
    (key : str) (c : client) (texts : list str) :
  getenv "OPENAI_API_KEY"%string = Some key ->
  key <> [] ->
  OpenAI key = Ok c ->
  PdfReader (news_path e1) = Ok (map Ok texts) ->
  ~ blank (concat texts) ->
  (length (concat texts) < fuel)%nat ->
  (forall df, to_csv (csv_path e2) df = Ok tt) ->
  exists t df closing,
    Script.script getenv client create OpenAI e1 e2 PdfReader to_csv true fuel
    = Some (t ++ [EToCsv (csv_path e2) df; EPrint closing], Returned)
    /\ concat (map split (map fst df)) = split (concat texts)
    /\ filter is_create t = map (fun row => ECreate (request_of (fst row))) df
    /\ filter is_to_csv t = []
    /\ exit_status Returned = 0.
Proof.
  intros G K O P NB Hf W. unfold Script.script. rewrite G.
  destruct key as [|k key]; [now elim K|]. cbn [truthy negb]. rewrite O.
  pose proof (read_pdf_texts PdfReader (news_path e1) texts P) as R.
  destruct (split_into_paragraphs_words (concat texts) fuel Hf)
    as (out & S & Hw).
  assert (Hne : out <> []).
  { intros ->. apply NB.
    now apply split_into_paragraphs_nil_blank with fuel. }
  pose proof (main_classified client create e1 e2
                (Extractor.read_pdf PdfReader) to_csv fuel c
                (concat texts) out R S Hne) as M.
  cbv zeta in M. rewrite W in M.
  assert (L : length out
              = length (fst (fst (classify_paragraphs client create c out))))
    by (symmetry; apply classify_paragraphs_length).
  destruct (map_fst_combine_same _ _ L) as [F1 _].
  exists ((EReadPdf (news_path e1)
             :: map EPrint (split_into_paragraphs_prints (concat texts)))
          ++ snd (fst (classify_paragraphs client create c out))),
    (combine out (fst (fst (classify_paragraphs client create c out)))).
  eexists. split; [|split; [|split; [|split]]].
  - rewrite M, <- !app_assoc. reflexivity.
  - now rewrite F1.
  - rewrite filter_app. unfold classify_paragraphs at 1.
    rewrite (proj2 (classify_loop_labels client create out c [] [])).
    rewrite <- F1 at 1. now rewrite map_map.
  - rewrite classify_paragraphs_spec. cbn [fst snd].
    rewrite filter_app, events_not_to_csv. reflexivity.
  - reflexivity.
Qed.

Lemma script_table_holds_document_witness :
  env_key "OPENAI_API_KEY"%string = Some (of_string "sk-test")
  /\ of_string "sk-test" <> []
  /\ client_ok (of_string "sk-test") = Ok tt
  /\ pdf_two_pages (news_path false) = Ok (map Ok [page_one; page_two])
  /\ ~ blank (concat [page_one; page_two])
  /\ (length (concat [page_one; page_two]) < 200)%nat
  /\ (forall df, writer_ok (csv_path false) df = Ok tt)
  /\ exists t df closing,
       Script.script env_key unit service_sports client_ok false false
         pdf_two_pages writer_ok true 200
       = Some (t ++ [EToCsv (csv_path false) df; EPrint closing], Returned)
       /\ concat (map split (map fst df))
          = split (concat [page_one; page_two])
       /\ filter is_create t
          = map (fun row => ECreate (request_of (fst row))) df
       /\ filter is_to_csv t = []
       /\ exit_status Returned = 0.
Proof.
  assert (G : env_key "OPENAI_API_KEY"%string = Some (of_string "sk-test"))
    by reflexivity.
  assert (K : of_string "sk-test" <> []) by discriminate.
  assert (O : client_ok (of_string "sk-test") = Ok tt) by reflexivity.
  assert (P : pdf_two_pages (news_path false)
              = Ok (map Ok [page_one; page_two])) by reflexivity.
  assert (NB : ~ blank (concat [page_one; page_two])).
  { intros B. inversion B as [|? ? H _]. discriminate H. }
  assert (Hf : (length (concat [page_one; page_two]) < 200)%nat)
    by (vm_compute; lia).
  assert (W : forall df, writer_ok (csv_path false) df = Ok tt)
    by reflexivity.
  split; [exact G|]. split; [exact K|]. split; [exact O|].
  split; [exact P|]. split; [exact NB|]. split; [exact Hf|].
  split; [exact W|].
  exact (script_table_holds_document env_key unit service_sports client_ok
           false false pdf_two_pages writer_ok 200 _ tt _ G K O P NB Hf W).
Defined.

(** ** Step 1 on its own *)

Lemma re_split_scan_whole (fuel : nat) :
  forall cur s,
  (forall a b, s = a ++ b -> match_sep b = None) ->
  re_split_scan fuel cur s = [rev cur ++ s].
Proof.
  induction fuel as [|fuel IH]; intros cur s H; simpl; [reflexivity|].
  destruct s as [|c r]; [now rewrite app_nil_r|].
  rewrite (H [] (c :: r) eq_refl), IH.
  - simpl. now rewrite <- app_assoc.
  - intros a b E. apply (H (c :: a)). simpl. now rewrite E.
Qed.

Lemma paragraphs_whole (text : str) :
  ~ has_separator text -> ~ blank text -> paragraphs text = [strip text].
Proof.
  intros NS NB. unfold paragraphs, re_split.
  rewrite re_split_scan_whole.
  - cbn [rev app filter].
    destruct (strip text) eqn:E; [elim NB; now apply strip_nil_blank|].
    cbn [truthy map]. now rewrite E.
  - intros a b E. destruct (match_sep b) eqn:M; [|reflexivity].
    elim NS. exists a, b. split; [exact E | congruence].
Qed.

(** X20. Every paragraph found by Step 1 stands in the text as it is (the
    text is something, the paragraph, something), neither begins nor ends
    with whitespace, holds no separator, and holds a word. *)
Theorem paragraphs_are_clean_parts (text p : str) :
  In p (paragraphs text) ->
  (exists a b, text = a ++ p ++ b)
  /\ trimmed p
  /\ ~ has_separator p
  /\ 1 <= word_count p.
Proof.
  intros H. split; [now apply paragraphs_part|].
  split; [now apply paragraphs_trimmed with text|].
  split; [now apply paragraphs_clean with text|].
  now apply paragraphs_word_count with text.
Qed.

Lemma paragraphs_are_clean_parts_witness :
  In example_p2 (paragraphs example_text)
  /\ (exists a b, example_text = a ++ example_p2 ++ b)
  /\ trimmed example_p2
  /\ ~ has_separator example_p2
  /\ 1 <= word_count example_p2.
Proof.
  assert (H : In example_p2 (paragraphs example_text))
    by (vm_compute; tauto).
  split; [exact H|].
  exact (paragraphs_are_clean_parts example_text example_p2 H).
Defined.

(** X21. A text that holds a word but no separator is a single paragraph,
    and a single paragraph is never cut: the output is the trimmed text
    alone, however many words it has and whatever the budget. *)
Theorem text_without_separator_is_one_chunk (text : str) (fuel : nat) :
  ~ has_separator text ->
  ~ blank text ->
  paragraphs text = [strip text]
  /\ split_into_paragraphs fuel text = Some [strip text].
Proof.
  intros NS NB. pose proof (paragraphs_whole text NS NB) as E.
  split; [exact E|]. unfold split_into_paragraphs. rewrite E.
  apply (for_paragraph_all_short fuel _ _ [strip text]).
  intros p Hp. apply uniform_short; [|exact Hp].
  intros q r [<-|[]] [<-|[]]. reflexivity.
Qed.

Lemma text_without_separator_is_one_chunk_witness :
  ~ has_separator ([SPACE] ++ example_p3 ++ [LF])
  /\ ~ blank ([SPACE] ++ example_p3 ++ [LF])
  /\ paragraphs ([SPACE] ++ example_p3 ++ [LF]) = [example_p3]
  /\ split_into_paragraphs 0 ([SPACE] ++ example_p3 ++ [LF])
     = Some [example_p3].
Proof.
  assert (NB : ~ blank ([SPACE] ++ example_p3 ++ [LF])).
  { intros B. apply Forall_inv_tail, Forall_inv in B. discriminate B. }
  assert (NS : ~ has_separator ([SPACE] ++ example_p3 ++ [LF])).
  { intros S. apply (re_split_clean ([SPACE] ++ example_p3 ++ [LF])
                       ([SPACE] ++ example_p3 ++ [LF])); [|exact S].
    vm_compute. now left. }
  split; [exact NS|]. split; [exact NB|].
  exact (text_without_separator_is_one_chunk
           ([SPACE] ++ example_p3 ++ [LF]) 0 NS NB).
Defined.

Lemma read_pdf_ok_iff_witness :
  (exists texts,
     pdf_two_pages "news.pdf"%string = Ok (map Ok texts)
     /\ example_text = concat texts)
  /\ Extractor.read_pdf pdf_two_pages "news.pdf"%string = Ok example_text.
Proof.
  assert (H : exists texts,
                pdf_two_pages "news.pdf"%string = Ok (map Ok texts)
                /\ example_text = concat texts).
  { exists [page_one; page_two]. split; reflexivity. }
  split; [exact H|].
  exact (proj2 (read_pdf_ok_iff pdf_two_pages "news.pdf"%string example_text)
           H).
Defined.

Lemma read_pdf_raise_iff_witness :
  (pdf_bad_page "news.pdf"%string = Raise "cannot decode page"%string
   \/ exists texts rest,
        pdf_bad_page "news.pdf"%string
        = Ok (map Ok texts ++ Raise "cannot decode page"%string :: rest))
  /\ Extractor.read_pdf pdf_bad_page "news.pdf"%string
     = Raise "cannot decode page"%string.
Proof.
  assert (H : pdf_bad_page "news.pdf"%string
              = Raise "cannot decode page"%string
              \/ exists texts rest,
                   pdf_bad_page "news.pdf"%string
                   = Ok (map Ok texts
                         ++ Raise "cannot decode page"%string :: rest)).
  { right. exists [example_p1], [Ok example_p2]. reflexivity. }
  split; [exact H|].
  exact (proj2 (read_pdf_raise_iff pdf_bad_page "news.pdf"%string
                  "cannot decode page"%string) H).
Defined.
